(** * recup_urbanisme.py : adaptive WFS tile harvesting

    A shallow embedding of [recup_urbanisme.py] and the properties the
    specification states about it.

    Modelling conventions.
    - Coordinates are exact rationals ([Q]); comparisons of coordinates are
      up to [==].  Rounding is not modelled: on the script's own
      configuration (bounds -5, 41, 10, 52, step 1, at most three bisections)
      binary64 arithmetic yields the same tiles, which the last section
      checks by evaluation.
    - Python [while] loops and the recursion of [process_tile] take a fuel
      argument; [None] means the fuel ran out.  Termination theorems give a
      fuel that suffices, divergence theorems show that none does.
    - The remote service is a parameter [wfs_request] acting on an abstract
      [World]; every other library call (pandas, geopandas, time, print) is
      an event appended to the emitted trace and is assumed not to raise. *)

From Stdlib Require Import String List ZArith QArith Qround Lqa Lia Bool.
From Stdlib Require Import PrimFloat.
Import ListNotations.

Local Open Scope Q_scope.

(** ** Regions *)

(** A bbox is the Python 4-tuple [(minx, miny, maxx, maxy)]. *)
Definition bbox : Type := (Q * Q * Q * Q)%type.

Definition bminx (b : bbox) : Q := let '(a, _, _, _) := b in a.
Definition bminy (b : bbox) : Q := let '(_, a, _, _) := b in a.
Definition bmaxx (b : bbox) : Q := let '(_, _, a, _) := b in a.
Definition bmaxy (b : bbox) : Q := let '(_, _, _, a) := b in a.

(** Two tuples denote the same region when their coordinates are equal as
    rationals. *)
Definition bbox_eq (a b : bbox) : Prop :=
  bminx a == bminx b /\ bminy a == bminy b /\
  bmaxx a == bmaxx b /\ bmaxy a == bmaxy b.

(** Python's [a < b] on numbers. *)
Definition ltb (a b : Q) : bool := if Qlt_le_dec a b then true else false.

(** Python's builtin [min(a, b)]: the first argument unless the second is
    strictly smaller. *)
Definition py_min (a b : Q) : Q := if ltb b a then b else a.

(** ** The tiling generator (lines 27-35) *)

Module Tiling.

(** The inner [while y < maxy] loop for a fixed [x]; the list is the sequence
    of yielded tuples. *)
Fixpoint column_tiles (fuel : nat) (x y maxx maxy size : Q) : option (list bbox) :=
  if ltb y maxy then
    match fuel with
    | O => None
    | S fuel' =>
        match column_tiles fuel' x (y + size) maxx maxy size with
        | Some rest => Some ((x, y, py_min (x + size) maxx, py_min (y + size) maxy) :: rest)
        | None => None
        end
    end
  else Some [].

(** The outer [while x < maxx] loop; every run of the inner loop gets the
    same [budget]. *)
Fixpoint grid_tiles (budget fuel : nat) (x miny maxx maxy size : Q) : option (list bbox) :=
  if ltb x maxx then
    match fuel with
    | O => None
    | S fuel' =>
        match column_tiles budget x miny maxx maxy size with
        | Some col =>
            match grid_tiles budget fuel' (x + size) miny maxx maxy size with
            | Some rest => Some (col ++ rest)
            | None => None
            end
        | None => None
        end
    end
  else Some [].

(** The generator run to exhaustion: [Some] of the yielded sequence, or
    [None] when some loop is still running after [fuel] iterations. *)
Definition generate_tiles (fuel : nat) (minx miny maxx maxy size : Q) : option (list bbox) :=
  grid_tiles fuel fuel minx miny maxx maxy size.

(** The generator as Python runs it, lazily: it stands at the test of the
    outer loop, at the test of the inner loop, or is exhausted; a step runs
    to the next test and may yield a tile on the way. *)
Inductive gen_state : Type :=
| AtOuter (x : Q)
| AtInner (x y : Q)
| Exhausted.

Definition gen_step (miny maxx maxy size : Q) (s : gen_state)
  : option bbox * gen_state :=
  match s with
  | AtOuter x =>
      if ltb x maxx then (None, AtInner x miny) else (None, Exhausted)
  | AtInner x y =>
      if ltb y maxy
      then (Some (x, y, py_min (x + size) maxx, py_min (y + size) maxy),
            AtInner x (y + size))
      else (None, AtOuter (x + size))
  | Exhausted => (None, Exhausted)
  end.

(** The tiles yielded during [n] steps from a state, and the state reached. *)
Fixpoint gen_run (n : nat) (miny maxx maxy size : Q) (s : gen_state)
  : list bbox * gen_state :=
  match n with
  | O => ([], s)
  | S n' =>
      let (o, s') := gen_step miny maxx maxy size s in
      let (l, s'') := gen_run n' miny maxx maxy size s' in
      (match o with Some t => t :: l | None => l end, s'')
  end.

(** What a consumer has received from [generate_tiles(minx, miny, maxx, maxy,
    size)] after [n] steps, whether or not the generator ever ends. *)
Definition yielded (n : nat) (minx miny maxx maxy size : Q) : list bbox :=
  fst (gen_run n miny maxx maxy size (AtOuter minx)).

End Tiling.
Import Tiling.

(** ** Quartering (lines 74-86) *)

Definition TILE_DIVISION_FACTOR : Z := 2.

(** Python's [range(n)]. *)
Definition range (n : Z) : list Z := map Z.of_nat (seq 0 (Z.to_nat n)).

(** The tuple built at lines 81-86 for loop indices [i] and [j]. *)
Definition sub_bbox (b : bbox) (i j : Z) : bbox :=
  let '(minx, miny, maxx, maxy) := b in
  let new_size_x := (maxx - minx) / inject_Z TILE_DIVISION_FACTOR in
  let new_size_y := (maxy - miny) / inject_Z TILE_DIVISION_FACTOR in
  (minx + inject_Z i * new_size_x,
   miny + inject_Z j * new_size_y,
   minx + inject_Z (i + 1) * new_size_x,
   miny + inject_Z (j + 1) * new_size_y).

(** The sub-regions of one subdivision, in the order the nested loops of
    lines 79-80 visit them. *)
Definition children (b : bbox) : list bbox :=
  flat_map (fun i => map (fun j => sub_bbox b i j) (range TILE_DIVISION_FACTOR))
           (range TILE_DIVISION_FACTOR).

(** The regions reached after [d] successive subdivisions of [b]. *)
Fixpoint leaves (d : nat) (b : bbox) : list bbox :=
  match d with
  | O => [b]
  | S d' => flat_map (leaves d') (children b)
  end.

(** Point sets of a region: the closed rectangle and its interior. *)
Definition inside (px py : Q) (b : bbox) : Prop :=
  (bminx b <= px /\ px <= bmaxx b) /\ (bminy b <= py /\ py <= bmaxy b).

Definition interior (px py : Q) (b : bbox) : Prop :=
  (bminx b < px /\ px < bmaxx b) /\ (bminy b < py /\ py < bmaxy b).

Definition area (b : bbox) : Q := (bmaxx b - bminx b) * (bmaxy b - bminy b).

Definition disjoint_interiors (a b : bbox) : Prop :=
  forall px py, ~ (interior px py a /\ interior px py b).

(** ** The coordinate arithmetic in binary64

    The same tiling and quartering code over primitive floats, to compare
    with the rational model on the script's own configuration. *)

Module Binary64.

Definition fbbox : Type := (float * float * float * float)%type.

(** An integer as Python converts it in mixed arithmetic (exact below
    2^53). *)
Fixpoint of_pos (p : positive) : float :=
  match p with
  | xH => 1%float
  | xO p' => PrimFloat.mul 2%float (of_pos p')
  | xI p' => PrimFloat.add (PrimFloat.mul 2%float (of_pos p')) 1%float
  end.

Definition of_Z (z : Z) : float :=
  match z with
  | Z0 => 0%float
  | Zpos p => of_pos p
  | Zneg p => PrimFloat.opp (of_pos p)
  end.

Definition of_Q (q : Q) : float := PrimFloat.div (of_Z (Qnum q)) (of_Z (Zpos (Qden q))).

Definition of_bbox (b : bbox) : fbbox :=
  let '(a, b, c, d) := b in (of_Q a, of_Q b, of_Q c, of_Q d).

Definition py_min (a b : float) : float := if PrimFloat.ltb b a then b else a.

Fixpoint column_tiles (fuel : nat) (x y maxx maxy size : float)
  : option (list fbbox) :=
  if PrimFloat.ltb y maxy then
    match fuel with
    | O => None
    | S fuel' =>
        match column_tiles fuel' x (PrimFloat.add y size) maxx maxy size with
        | Some rest =>
            Some ((x, y, py_min (PrimFloat.add x size) maxx,
                         py_min (PrimFloat.add y size) maxy) :: rest)
        | None => None
        end
    end
  else Some [].

Fixpoint grid_tiles (budget fuel : nat) (x miny maxx maxy size : float)
  : option (list fbbox) :=
  if PrimFloat.ltb x maxx then
    match fuel with
    | O => None
    | S fuel' =>
        match column_tiles budget x miny maxx maxy size with
        | Some col =>
            match grid_tiles budget fuel' (PrimFloat.add x size) miny maxx maxy size with
            | Some rest => Some (col ++ rest)
            | None => None
            end
        | None => None
        end
    end
  else Some [].

Definition generate_tiles (fuel : nat) (minx miny maxx maxy size : float) :=
  grid_tiles fuel fuel minx miny maxx maxy size.

Definition sub_bbox (b : fbbox) (i j : Z) : fbbox :=
  let '(minx, miny, maxx, maxy) := b in
  let new_size_x := PrimFloat.div (PrimFloat.sub maxx minx) (of_Z TILE_DIVISION_FACTOR) in
  let new_size_y := PrimFloat.div (PrimFloat.sub maxy miny) (of_Z TILE_DIVISION_FACTOR) in
  (PrimFloat.add minx (PrimFloat.mul (of_Z i) new_size_x),
   PrimFloat.add miny (PrimFloat.mul (of_Z j) new_size_y),
   PrimFloat.add minx (PrimFloat.mul (of_Z (i + 1)) new_size_x),
   PrimFloat.add miny (PrimFloat.mul (of_Z (j + 1)) new_size_y)).

Definition children (b : fbbox) : list fbbox :=
  flat_map (fun i => map (fun j => sub_bbox b i j) (range TILE_DIVISION_FACTOR))
           (range TILE_DIVISION_FACTOR).

Fixpoint leaves (d : nat) (b : fbbox) : list fbbox :=
  match d with
  | O => [b]
  | S d' => flat_map (leaves d') (children b)
  end.

(** The closed rectangle of a bbox, with Python's comparisons on floats. *)
Definition inside (px py : float) (b : fbbox) : bool :=
  let '(minx, miny, maxx, maxy) := b in
  andb (andb (PrimFloat.leb minx px) (PrimFloat.leb px maxx))
       (andb (PrimFloat.leb miny py) (PrimFloat.leb py maxy)).

(** "The sub-regions of a subdivision reconstruct the region with no gap",
    read on the floats the script computes with. *)
Definition quarters_cover (b : fbbox) : Prop :=
  forall px py, inside px py b = true -> existsb (inside px py) (children b) = true.

End Binary64.

(** ** Record sets *)

Local Open Scope Z_scope.

(** A cell of a data frame; attribute and geometry payloads are opaque. *)
Inductive value : Type :=
| VText (s : string)
| VGeometry (g : string)
| VNaN.

(** A (Geo)DataFrame: its column labels and its rows, each row positional
    with respect to [columns]. *)
Record GeoDataFrame : Type := mkGDF {
  columns : list string;
  rows : list (list value)
}.

(** [len(gdf)] *)
Definition len (gdf : GeoDataFrame) : Z := Z.of_nat (length (rows gdf)).

(** [c in gdf.columns] *)
Definition has_column (c : string) (gdf : GeoDataFrame) : bool :=
  existsb (String.eqb c) (columns gdf).

(** The value of a row under column label [c]; [VNaN] when the label is
    missing. *)
Fixpoint cell (cols : list string) (r : list value) (c : string) : value :=
  match cols, r with
  | k :: cols', v :: r' => if String.eqb k c then v else cell cols' r' c
  | _, _ => VNaN
  end.

(** The frame re-labelled to [cols]: every row keeps its values under the
    labels of [cols].  This is [gdf[cols]] when [cols] are labels of [gdf]. *)
Definition reindex (gdf : GeoDataFrame) (cols : list string) : GeoDataFrame :=
  {| columns := cols;
     rows := map (fun r => map (cell (columns gdf) r) cols) (rows gdf) |}.

(** [df.drop(columns=c)] *)
Definition drop (gdf : GeoDataFrame) (c : string) : GeoDataFrame :=
  reindex gdf (filter (fun k => negb (String.eqb k c)) (columns gdf)).

(** Labels of a list of frames in order of first appearance. *)
Definition add_label (seen : list string) (c : string) : list string :=
  if existsb (String.eqb c) seen then seen else seen ++ [c].

Definition union_columns (dfs : list GeoDataFrame) : list string :=
  fold_left (fun seen df => fold_left add_label (columns df) seen) dfs [].

(** [pd.concat(dfs, ignore_index=True)]: rows in order, columns united,
    missing cells filled with NaN. *)
Definition concat (dfs : list GeoDataFrame) : GeoDataFrame :=
  let cols := union_columns dfs in
  {| columns := cols;
     rows := flat_map (fun df => rows (reindex df cols)) dfs |}.


(** ** Observable events *)

(** What the script prints; formatted text is not modelled, only the data
    each line carries. *)
Inductive message : Type :=
| MsgFetchError (b : bbox)               (* line 55 *)
| MsgSubdivision (b : bbox) (level : Z)  (* line 73 *)
| MsgTotalTiles (n : Z)                  (* line 97 *)
| MsgTileStart (i total : Z) (b : bbox)  (* line 100 *)
| MsgCollected (n total : Z)             (* line 110 *)
| MsgFinal (n : Z)                       (* line 117 *)
| MsgExportDone                          (* lines 128-130 *)
| MsgNoData.                             (* line 132 *)

Inductive event : Type :=
| EvRequest (b : bbox)                                (* requests.get, line 51 *)
| EvVisit (b : bbox) (depth : Z) (r : option GeoDataFrame)
    (* bookkeeping: [process_tile b depth] obtained [r] from [get_features] *)
| EvPrint (m : message)
| EvSleep (secs : Z)                                  (* time.sleep, line 112 *)
| EvToFile (path driver : string) (gdf : GeoDataFrame)  (* line 120 *)
| EvToCsv (path : string) (df : GeoDataFrame).          (* lines 124, 126 *)

Definition is_request (e : event) : bool :=
  match e with EvRequest _ => true | _ => false end.

Definition is_sleep (e : event) : bool :=
  match e with EvSleep _ => true | _ => false end.

Definition is_print (e : event) : bool :=
  match e with EvPrint _ => true | _ => false end.

Definition is_write (e : event) : bool :=
  match e with EvToFile _ _ _ | EvToCsv _ _ => true | _ => false end.

Definition count_requests (t : list event) : nat := length (filter is_request t).
Definition count_sleeps (t : list event) : nat := length (filter is_sleep t).
Definition writes (t : list event) : list event := filter is_write t.

(** ** The script *)

Definition MAX_FEATURES : Z := 5000.
Definition MAX_DEPTH : Z := 3.
Definition cols_to_keep : list string :=
  ["gpu_doc_id"; "partition"; "nomfic"; "geometry"]%string.

Definition BBOX_FRANCE : bbox := (-5, 41, 10, 52)%Q.
Definition INITIAL_TILE_SIZE : Q := 1.

(** The test of line 67. *)
Definition accepts (gdf : GeoDataFrame) (depth : Z) : bool :=
  (len gdf <? MAX_FEATURES) || (depth >=? MAX_DEPTH).

(** Lines 68-70: the frame restricted to the kept columns it has. *)
Definition keep_columns (gdf : GeoDataFrame) : GeoDataFrame :=
  let available_cols := filter (fun c => has_column c gdf) cols_to_keep in
  reindex gdf available_cols.

(** The two accumulators of the harvest loop (lines 92-93). *)
Record accumulator : Type := mkAcc {
  all_features : list GeoDataFrame;
  total_collected : Z
}.

Definition initial_accumulator : accumulator :=
  {| all_features := []; total_collected := 0 |}.

Section Script.

Context {World : Type}.

(** The body of the [try] block of [get_features] for a bbox: the request and
    the parsing of its response.  [None] stands for any exception raised
    there. *)
Variable wfs_request : bbox -> World -> option GeoDataFrame * World.

(** Computations: they act on the world, emit events, and may run out of
    fuel. *)
Definition M (A : Type) : Type := World -> option (A * World * list event).

Definition ret {A} (a : A) : M A := fun w => Some (a, w, []).

Definition bind {A B} (m : M A) (k : A -> M B) : M B :=
  fun w =>
    match m w with
    | None => None
    | Some (a, w1, t1) =>
        match k a w1 with
        | None => None
        | Some (b, w2, t2) => Some (b, w2, t1 ++ t2)
        end
    end.

Definition emit (e : event) : M unit := fun w => Some (tt, w, [e]).

Definition out_of_fuel {A} : M A := fun _ => None.

Notation "x <- m ;; k" := (bind m (fun x => k))
  (at level 61, m at next level, right associativity).
Notation "m ;; k" := (bind m (fun _ => k))
  (at level 61, right associativity).

(** A [for] loop threading the value [r] through its iterations. *)
Fixpoint for_each {A R} (l : list A) (body : A -> R -> M R) (r : R) : M R :=
  match l with
  | [] => ret r
  | a :: l' => r' <- body a r ;; for_each l' body r'
  end.

(** Lines 37-56. *)
Definition get_features (b : bbox) : M (option GeoDataFrame) :=
  fun w =>
    match wfs_request b w with
    | (Some gdf, w') => Some (Some gdf, w', [EvRequest b])
    | (None, w') => Some (None, w', [EvRequest b; EvPrint (MsgFetchError b)])
    end.

(** Lines 58-89. *)
Fixpoint process_tile (fuel : nat) (b : bbox) (depth : Z) : M (list GeoDataFrame) :=
  match fuel with
  | O => out_of_fuel
  | S fuel' =>
      r <- get_features b ;;
      emit (EvVisit b depth r) ;;
      match r with
      | None => ret []
      | Some gdf =>
          if accepts gdf depth then ret [keep_columns gdf]
          else
            emit (EvPrint (MsgSubdivision b (depth + 1))) ;;
            for_each (range TILE_DIVISION_FACTOR) (fun i results =>
              for_each (range TILE_DIVISION_FACTOR) (fun j results =>
                sub <- process_tile fuel' (sub_bbox b i j) (depth + 1) ;;
                ret (results ++ sub)) results) []
      end
  end.

(** Lines 106-110: the inner loop over the record sets of one tile. *)
Definition collect (tile_features : list GeoDataFrame) (a : accumulator) : M accumulator :=
  for_each tile_features (fun gdf a =>
    if len gdf >? 0 then
      let a' := {| all_features := all_features a ++ [gdf];
                   total_collected := total_collected a + len gdf |} in
      emit (EvPrint (MsgCollected (len gdf) (total_collected a'))) ;;
      ret a'
    else ret a) a.

(** Lines 100-112: one iteration of the harvest loop, for the [i]-th bbox. *)
Definition harvest_tile (fuel : nat) (total_tiles i : Z) (b : bbox) (a : accumulator)
  : M accumulator :=
  emit (EvPrint (MsgTileStart (i + 1) total_tiles b)) ;;
  tile_features <- process_tile fuel b 0 ;;
  match tile_features with
  | [] => ret a                                   (* continue *)
  | _ :: _ =>
      a' <- collect tile_features a ;;
      emit (EvSleep 1) ;;
      ret a'
  end.

(** Lines 99-112: the loop over the enumerated tiles, from index [i]. *)
Fixpoint harvest_loop (fuel : nat) (total_tiles i : Z) (tiles : list bbox)
  (a : accumulator) : M accumulator :=
  match tiles with
  | [] => ret a
  | b :: rest =>
      a' <- harvest_tile fuel total_tiles i b a ;;
      harvest_loop fuel total_tiles (i + 1) rest a'
  end.

(** Running a generator to exhaustion. *)
Definition tiles_of (fuel : nat) (area : bbox) (size : Q) : M (list bbox) :=
  let '(minx, miny, maxx, maxy) := area in
  match generate_tiles fuel minx miny maxx maxy size with
  | Some tiles => ret tiles
  | None => out_of_fuel
  end.

(** Lines 92-112 for an area of interest and an initial tile size. *)
Definition harvest (fuel : nat) (area : bbox) (size : Q) : M accumulator :=
  counted <- tiles_of fuel area size ;;
  let total_tiles := Z.of_nat (length counted) in
  emit (EvPrint (MsgTotalTiles total_tiles)) ;;
  tiles <- tiles_of fuel area size ;;
  harvest_loop fuel total_tiles 0 tiles initial_accumulator.

(** Lines 115-132. *)
Definition export (a : accumulator) : M unit :=
  match all_features a with
  | _ :: _ =>
      let final_gdf := concat (all_features a) in
      emit (EvPrint (MsgFinal (len final_gdf))) ;;
      emit (EvToFile "urbanisme_complet.geojson" "GeoJSON" final_gdf) ;;
      (if has_column "geometry" final_gdf
       then emit (EvToCsv "urbanisme_attributs.csv" (drop final_gdf "geometry"))
       else emit (EvToCsv "urbanisme_attributs.csv" final_gdf)) ;;
      emit (EvPrint MsgExportDone)
  | [] => emit (EvPrint MsgNoData)
  end.

(** The whole run for an area and a tile size, returning the final value
    of the two accumulators; the script itself is [main]. *)
Definition run (fuel : nat) (area : bbox) (size : Q) : M accumulator :=
  a <- harvest fuel area size ;;
  export a ;;
  ret a.

Definition main (fuel : nat) : M accumulator :=
  run fuel BBOX_FRANCE INITIAL_TILE_SIZE.

End Script.

Arguments M World A : clear implicits.

(** ** The export when the writers may raise

    [to_file] and [to_csv] belong to geopandas and pandas; here each is given
    by the predicate telling on which frames it raises.  Nothing in lines
    115-132 catches an exception, so a raising writer ends the script. *)

Inductive outcome : Type :=
| Completed
| Crashed.

Section CheckedExport.

Context {World : Type}.
Variable wfs_request : bbox -> World -> option GeoDataFrame * World.
Variables to_file_raises to_csv_raises : GeoDataFrame -> bool.

(** Lines 115-132; a write event is emitted only for a write that went
    through. *)
Definition export_with (a : accumulator) : M World outcome :=
  match all_features a with
  | _ :: _ =>
      let final_gdf := concat (all_features a) in
      bind (emit (EvPrint (MsgFinal (len final_gdf)))) (fun _ =>
      if to_file_raises final_gdf then ret Crashed
      else
        bind (emit (EvToFile "urbanisme_complet.geojson" "GeoJSON" final_gdf)) (fun _ =>
        let attributes :=
          if has_column "geometry" final_gdf then drop final_gdf "geometry"
          else final_gdf in
        if to_csv_raises attributes then ret Crashed
        else
          bind (emit (EvToCsv "urbanisme_attributs.csv" attributes)) (fun _ =>
          bind (emit (EvPrint MsgExportDone)) (fun _ => ret Completed))))
  | [] => bind (emit (EvPrint MsgNoData)) (fun _ => ret Completed)
  end.

(** The whole run, with how it ended and the final accumulators. *)
Definition run_with (fuel : nat) (area : bbox) (size : Q)
  : M World (outcome * accumulator) :=
  bind (harvest wfs_request fuel area size) (fun a =>
  bind (export_with a) (fun o => ret (o, a))).

End CheckedExport.

(** A writer that never raises. *)
Definition never_raises (g : GeoDataFrame) : bool := false.

(** [to_file] as it behaves on a frame without any column: it raises. *)
Definition raises_without_columns (g : GeoDataFrame) : bool :=
  match columns g with [] => true | _ :: _ => false end.

(** ** Column selection with repeated labels *)

(** The cells of a row under every column labelled [c]. *)
Fixpoint cells_under (cols : list string) (r : list value) (c : string) : list value :=
  match cols, r with
  | k :: cols', v :: r' =>
      if String.eqb k c then v :: cells_under cols' r' c else cells_under cols' r' c
  | _, _ => []
  end.

(** [gdf[labels]] as pandas does it: for each requested label, every column
    bearing it. *)
Definition getitem (gdf : GeoDataFrame) (labels : list string) : GeoDataFrame :=
  {| columns := flat_map (fun c => filter (String.eqb c) (columns gdf)) labels;
     rows := map (fun r => flat_map (cells_under (columns gdf) r) labels) (rows gdf) |}.

(** ** Reading a trace *)

(** The [(depth, record set)] pairs a trace shows being returned by the
    accepting branch of [process_tile] (line 70), in order. *)
Definition accepted (t : list event) : list (Z * GeoDataFrame) :=
  flat_map (fun e =>
    match e with
    | EvVisit _ d (Some gdf) => if accepts gdf d then [(d, keep_columns gdf)] else []
    | _ => []
    end) t.

(** The [(bbox, depth)] pairs of all calls of [process_tile] in a trace. *)
Definition visited (t : list event) : list (bbox * Z) :=
  flat_map (fun e => match e with EvVisit b d _ => [(b, d)] | _ => [] end) t.

(** The record sets the loop of lines 106-110 appends. *)
Definition nonempty_sets (l : list GeoDataFrame) : list GeoDataFrame :=
  filter (fun gdf => len gdf >? 0) l.

Definition sum_len (l : list GeoDataFrame) : Z :=
  fold_right (fun gdf n => len gdf + n) 0 l.

(** The relation the loop of lines 99-112 maintains between its two
    accumulators. *)
Definition accumulator_ok (a : accumulator) : Prop :=
  total_collected a = sum_len (all_features a) /\
  Forall (fun gdf => 0 < len gdf) (all_features a).

(** Worst-case number of requests of a call that may still subdivide [k]
    times. *)
Fixpoint max_requests (k : nat) : nat :=
  match k with
  | O => 1
  | S k' => 1 + 4 * max_requests k'
  end.

(** The big-step reading of a call [process_tile b depth] from world [w]:
    result, final world and emitted events. *)
Inductive tile_run {World : Type}
  (wfs_request : bbox -> World -> option GeoDataFrame * World)
  : bbox -> Z -> World -> list GeoDataFrame -> World -> list event -> Prop :=
| run_failed b d w w1 :
    wfs_request b w = (None, w1) ->
    tile_run wfs_request b d w [] w1
      [EvRequest b; EvPrint (MsgFetchError b); EvVisit b d None]
| run_accepted b d w w1 gdf :
    wfs_request b w = (Some gdf, w1) ->
    accepts gdf d = true ->
    tile_run wfs_request b d w [keep_columns gdf] w1
      [EvRequest b; EvVisit b d (Some gdf)]
| run_subdivided b d w w1 gdf r1 w2 t1 r2 w3 t2 r3 w4 t3 r4 w5 t4 :
    wfs_request b w = (Some gdf, w1) ->
    accepts gdf d = false ->
    tile_run wfs_request (sub_bbox b 0 0) (d + 1) w1 r1 w2 t1 ->
    tile_run wfs_request (sub_bbox b 0 1) (d + 1) w2 r2 w3 t2 ->
    tile_run wfs_request (sub_bbox b 1 0) (d + 1) w3 r3 w4 t3 ->
    tile_run wfs_request (sub_bbox b 1 1) (d + 1) w4 r4 w5 t4 ->
    tile_run wfs_request b d w (r1 ++ r2 ++ r3 ++ r4) w5
      ([EvRequest b; EvVisit b d (Some gdf); EvPrint (MsgSubdivision b (d + 1))]
         ++ t1 ++ t2 ++ t3 ++ t4).

(** ** Sample services *)

Module Samples.

(** A service that is down. *)
Definition always_fails (b : bbox) (w : unit) : option GeoDataFrame * unit := (None, w).

(** Two zoning features with one column outside the keep-list. *)
Definition small_frame : GeoDataFrame :=
  {| columns := ["gpu_doc_id"; "typezone"; "geometry"]%string;
     rows := [[VText "doc-a"; VText "U"; VGeometry "polygon-a"];
              [VText "doc-b"; VText "N"; VGeometry "polygon-b"]] |}.

Definition always_small (b : bbox) (w : unit) : option GeoDataFrame * unit :=
  (Some small_frame, w).

(** A frame with no feature at all. *)
Definition empty_frame : GeoDataFrame :=
  {| columns := ["gpu_doc_id"; "geometry"]%string; rows := [] |}.

Definition always_empty (b : bbox) (w : unit) : option GeoDataFrame * unit :=
  (Some empty_frame, w).

(** A frame filled up to the server cap. *)
Definition capped_frame : GeoDataFrame :=
  {| columns := ["geometry"]%string;
     rows := repeat [VGeometry "polygon"] (Z.to_nat MAX_FEATURES) |}.

(** The pathological service: every answer is capped. *)
Definition always_capped (b : bbox) (w : unit) : option GeoDataFrame * unit :=
  (Some capped_frame, w).

Definition bbox_eqb (a b : bbox) : bool :=
  Qeq_bool (bminx a) (bminx b) && Qeq_bool (bminy a) (bminy b) &&
  Qeq_bool (bmaxx a) (bmaxx b) && Qeq_bool (bmaxy a) (bmaxy b).

(** A service failing on one bbox only. *)
Definition fails_on (bad : bbox) (b : bbox) (w : unit) : option GeoDataFrame * unit :=
  if bbox_eqb b bad then (None, w) else (Some small_frame, w).

(** A service whose world counts the requests it has served; the first
    answer is capped, the later ones are not. *)
Definition capped_once (b : bbox) (w : nat) : option GeoDataFrame * nat :=
  match w with
  | O => (Some capped_frame, S w)
  | S _ => (Some small_frame, S w)
  end.



Definition unit_square : bbox := (0, 0, 1, 1)%Q.

(** The tile of the failure-isolation scenario. *)
Definition failing_tile : bbox := (0, 45, 1, 46)%Q.

(** A capped answer without columns, and a service that gives it for one
    bbox only. *)
Definition bare_capped_frame : GeoDataFrame :=
  {| columns := []; rows := repeat [] (Z.to_nat MAX_FEATURES) |}.

Definition capped_at (dense : bbox) (b : bbox) (w : unit)
  : option GeoDataFrame * unit :=
  if bbox_eqb b dense then (Some bare_capped_frame, w) else (Some small_frame, w).

(** A service that answers the dense tile with a capped frame and fails on
    one of its quarters. *)
Definition capped_then_failing (dense bad : bbox) (b : bbox) (w : unit)
  : option GeoDataFrame * unit :=
  if bbox_eqb b dense then (Some bare_capped_frame, w)
  else if bbox_eqb b bad then (None, w) else (Some small_frame, w).

(** One feature whose only column is outside the keep-list. *)
Definition typezone_frame : GeoDataFrame :=
  {| columns := ["typezone"]%string; rows := [[VText "U"]] |}.

Definition always_typezone (b : bbox) (w : unit) : option GeoDataFrame * unit :=
  (Some typezone_frame, w).

End Samples.

(** ** The specification's wording, where it departs from the script *)

(** "A pacing delay is applied after each initial tile, including tiles
    whose processing produced no records": as many pauses as initial
    tiles. *)
Definition pause_after_every_tile {World : Type}
  (wfs_request : bbox -> World -> option GeoDataFrame * World)
  (fuel : nat) (area : bbox) (size : Q) (w : World) : Prop :=
  forall a w' t tiles,
    harvest wfs_request fuel area size w = Some (a, w', t) ->
    tiles_of fuel area size w = Some (tiles, w, []) ->
    count_sleeps t = length tiles.



(** All four coordinates of [t] lie in the bounds, lower edges first. *)
Definition in_bounds (t : bbox) (minx miny maxx maxy : Q) : Prop :=
  ((minx <= bminx t)%Q /\ (bminx t <= bmaxx t)%Q /\ (bmaxx t <= maxx)%Q) /\
  ((miny <= bminy t)%Q /\ (bminy t <= bmaxy t)%Q /\ (bmaxy t <= maxy)%Q).

(** "Every yielded tile lies within the original bounds", for whatever the
    generator yields, however far it is consumed. *)
Definition yields_stay_in_bounds (minx miny maxx maxy size : Q) : Prop :=
  forall n t, In t (yielded n minx miny maxx maxy size) ->
              in_bounds t minx miny maxx maxy.

(** "If at least one record was accepted, both output files are written". *)
Definition writes_both_files_when_records {World : Type}
  (wfs_request : bbox -> World -> option GeoDataFrame * World)
  (to_file_raises to_csv_raises : GeoDataFrame -> bool)
  (fuel : nat) (area : bbox) (size : Q) (w : World) : Prop :=
  forall o a w' t,
    run_with wfs_request to_file_raises to_csv_raises fuel area size w
      = Some (o, a, w', t) ->
    0 < sum_len (map snd (accepted t)) ->
    exists final_gdf attributes,
      writes t = [EvToFile "urbanisme_complet.geojson" "GeoJSON" final_gdf;
                  EvToCsv "urbanisme_attributs.csv" attributes].

(** Where the lazy generator can stand: never left of [minx], and inside
    the inner loop never below [miny] nor at or beyond [maxx]. *)
Definition gen_state_ok (minx miny maxx : Q) (s : gen_state) : Prop :=
  match s with
  | AtOuter x => (minx <= x)%Q
  | AtInner x y => (minx <= x)%Q /\ (x < maxx)%Q /\ (miny <= y)%Q
  | Exhausted => True
  end.

(** ** Further vocabulary *)

(** A region with a non-empty interior. *)
Definition proper (b : bbox) : Prop :=
  (bminx b < bmaxx b)%Q /\ (bminy b < bmaxy b)%Q.

(** [inner] lies within [outer]. *)
Definition within (inner outer : bbox) : Prop :=
  ((bminx outer <= bminx inner)%Q /\ (bmaxx inner <= bmaxx outer)%Q) /\
  ((bminy outer <= bminy inner)%Q /\ (bmaxy inner <= bmaxy outer)%Q).

Definition width (b : bbox) : Q := (bmaxx b - bminx b)%Q.
Definition height (b : bbox) : Q := (bmaxy b - bminy b)%Q.

(** The subdivision messages of line 73. *)
Definition is_subdivision (e : event) : bool :=
  match e with EvPrint (MsgSubdivision _ _) => true | _ => false end.

Definition count_subdivisions (t : list event) : nat :=
  length (filter is_subdivision t).

(** The error messages of line 55. *)
Definition is_fetch_error (e : event) : bool :=
  match e with EvPrint (MsgFetchError _) => true | _ => false end.

Definition count_failures (t : list event) : nat :=
  length (filter is_fetch_error t).

(** Every row has one cell per column. *)
Definition rectangular (gdf : GeoDataFrame) : Prop :=
  Forall (fun r => length r = length (columns gdf)) (rows gdf).

(** A service that fails on every request. *)
Definition always_down {World : Type}
  (wfs_request : bbox -> World -> option GeoDataFrame * World) : Prop :=
  forall b w, fst (wfs_request b w) = None.

(** A service none of whose answers reaches the cap. *)
Definition never_capped {World : Type}
  (wfs_request : bbox -> World -> option GeoDataFrame * World) : Prop :=
  forall b w gdf w1, wfs_request b w = (Some gdf, w1) -> len gdf < MAX_FEATURES.

(** * Properties *)

(** ** Comparisons and rounding *)

Local Open Scope Q_scope.

Lemma ltb_lt a b : ltb a b = true <-> a < b.
Proof. unfold ltb; destruct (Qlt_le_dec a b); split; intros; try easy; lra. Qed.

Lemma ltb_ge a b : ltb a b = false <-> b <= a.
Proof. unfold ltb; destruct (Qlt_le_dec a b); split; intros; try easy; lra. Qed.

Lemma py_min_le_r a b : py_min a b <= b.
Proof. unfold py_min; destruct (ltb b a) eqn:E; [lra | apply ltb_ge in E; lra]. Qed.

Lemma py_min_le_l a b : py_min a b <= a.
Proof. unfold py_min; destruct (ltb b a) eqn:E; [apply ltb_lt in E; lra | lra]. Qed.

Lemma py_min_gt a b c : c < a -> c < b -> c < py_min a b.
Proof. unfold py_min; destruct (ltb b a); auto. Qed.

Lemma inject_Z_minus (x y : Z) : inject_Z (x - y) = inject_Z x - inject_Z y.
Proof. unfold Z.sub, Qminus. now rewrite inject_Z_plus, inject_Z_opp. Qed.

(** [Qceiling q] is the integer [n] with [n - 1 < q <= n]. *)
Lemma Qceiling_unique (q : Q) (n : Z) :
  inject_Z n - 1 < q -> q <= inject_Z n -> Qceiling q = n.
Proof.
  intros Hlo Hhi.
  pose proof (Qle_ceiling q) as Hc.
  pose proof (Qceiling_lt q) as Hl.
  rewrite inject_Z_minus in Hl. change (inject_Z 1) with 1 in Hl.
  assert (H1 : inject_Z (Qceiling q) < inject_Z (n + 1))
    by (rewrite inject_Z_plus; change (inject_Z 1) with 1; lra).
  assert (H2 : inject_Z n < inject_Z (Qceiling q + 1))
    by (rewrite inject_Z_plus; change (inject_Z 1) with 1; lra).
  rewrite <- Zlt_Qlt in H1, H2.
  lia.
Qed.

Lemma Qceiling_pred (q : Q) : Qceiling (q - 1) = (Qceiling q - 1)%Z.
Proof.
  apply Qceiling_unique.
  - pose proof (Qceiling_lt q) as Hl. rewrite !inject_Z_minus in *.
    change (inject_Z 1) with 1 in *. lra.
  - pose proof (Qle_ceiling q) as Hc. rewrite inject_Z_minus.
    change (inject_Z 1) with 1. lra.
Qed.

Lemma Qceiling_nonpos (q : Q) : q <= 0 -> (Qceiling q <= 0)%Z.
Proof. intros H. apply Qceiling_resp_le in H. exact H. Qed.

Lemma Qceiling_pos (q : Q) : 0 < q -> (1 <= Qceiling q)%Z.
Proof.
  intros H. pose proof (Qle_ceiling q) as Hc.
  assert (H1 : inject_Z 0 < inject_Z (Qceiling q)) by (change (inject_Z 0) with 0; lra).
  rewrite <- Zlt_Qlt in H1. lia.
Qed.

(** The quotient that counts loop iterations. *)
Lemma steps_next (hi lo size : Q) :
  0 < size -> (hi - (lo + size)) / size == (hi - lo) / size - 1.
Proof. intros H. field. lra. Qed.

Lemma steps_sign (hi lo size : Q) :
  0 < size -> (lo < hi <-> 0 < (hi - lo) / size).
Proof.
  intros H. split; intros H1.
  - apply Qlt_shift_div_l; lra.
  - assert (H2 : (hi - lo) / size * size == hi - lo) by (field; lra).
    assert (0 < (hi - lo) / size * size) by (apply Qmult_lt_0_compat; assumption).
    lra.
Qed.

(** ** The tiling generator *)

Section TilingFacts.

Variables maxx maxy size : Q.

(** More fuel never changes a result. *)
Lemma column_tiles_more_fuel (f : nat) : forall f' x y l,
  column_tiles f x y maxx maxy size = Some l -> (f <= f')%nat ->
  column_tiles f' x y maxx maxy size = Some l.
Proof.
  induction f as [|f IH]; intros f' x y l H Hle.
  - destruct f'; simpl in *; destruct (ltb y maxy); congruence.
  - destruct f' as [|f']; [lia|]. simpl in *.
    destruct (ltb y maxy); [|exact H].
    destruct (column_tiles f x (y + size) maxx maxy size) as [rest|] eqn:E; [|discriminate].
    rewrite (IH f' _ _ _ E) by lia. exact H.
Qed.

Lemma grid_tiles_more_fuel (b b' f : nat) : forall f' x miny l,
  grid_tiles b f x miny maxx maxy size = Some l -> (b <= b')%nat -> (f <= f')%nat ->
  grid_tiles b' f' x miny maxx maxy size = Some l.
Proof.
  induction f as [|f IH]; intros f' x miny l H Hb Hle.
  - destruct f'; simpl in *; destruct (ltb x maxx); congruence.
  - destruct f' as [|f']; [lia|]. simpl in *.
    destruct (ltb x maxx); [|exact H].
    destruct (column_tiles b x miny maxx maxy size) as [col|] eqn:Ec; [|discriminate].
    rewrite (column_tiles_more_fuel _ b' _ _ _ Ec Hb).
    destruct (grid_tiles b f (x + size) miny maxx maxy size) as [rest|] eqn:E; [|discriminate].
    rewrite (IH f' _ _ _ E) by lia. exact H.
Qed.

(** With a step that does not advance, a loop whose test holds once holds
    forever. *)
Lemma column_tiles_diverges (f : nat) : forall x y,
  size <= 0 -> y < maxy -> column_tiles f x y maxx maxy size = None.
Proof.
  induction f as [|f IH]; intros x y Hs Hy; simpl;
    (destruct (ltb y maxy) eqn:E; [|apply ltb_ge in E; lra]); [reflexivity|].
  rewrite IH by lra. reflexivity.
Qed.

Lemma grid_tiles_diverges (b f : nat) : forall x miny,
  size <= 0 -> x < maxx -> grid_tiles b f x miny maxx maxy size = None.
Proof.
  induction f as [|f IH]; intros x miny Hs Hx; simpl;
    (destruct (ltb x maxx) eqn:E; [|apply ltb_ge in E; lra]); [reflexivity|].
  destruct (column_tiles b x miny maxx maxy size); [|reflexivity].
  rewrite IH by lra. reflexivity.
Qed.

(** What the inner loop yields: tiles of abscissa [x], clipped, with
    ordinates between the start and [maxy]. *)
Lemma column_tiles_shape (f : nat) : forall x y l t,
  column_tiles f x y maxx maxy size = Some l -> 0 < size -> In t l ->
  bminx t = x /\ bmaxx t = py_min (x + size) maxx /\
  y <= bminy t /\ bminy t < maxy /\ bmaxy t = py_min (bminy t + size) maxy.
Proof.
  induction f as [|f IH]; intros x y l t H Hs Hin; simpl in H;
    destruct (ltb y maxy) eqn:E; try discriminate;
    try (injection H as <-; destruct Hin).
  destruct (column_tiles f x (y + size) maxx maxy size) as [rest|] eqn:Er; [|discriminate].
  injection H as <-. apply ltb_lt in E. destruct Hin as [<-|Hin].
  - simpl. repeat split; try reflexivity; lra.
  - destruct (IH _ _ _ _ Er Hs Hin) as (H1 & H2 & H3 & H4 & H5).
    repeat split; try assumption; lra.
Qed.

Lemma grid_tiles_shape (b f : nat) : forall x miny l t,
  grid_tiles b f x miny maxx maxy size = Some l -> 0 < size -> In t l ->
  (x <= bminx t /\ bminx t < maxx /\ bmaxx t = py_min (bminx t + size) maxx) /\
  (miny <= bminy t /\ bminy t < maxy /\ bmaxy t = py_min (bminy t + size) maxy).
Proof.
  induction f as [|f IH]; intros x miny l t H Hs Hin; simpl in H;
    destruct (ltb x maxx) eqn:E; try discriminate;
    try (injection H as <-; destruct Hin).
  destruct (column_tiles b x miny maxx maxy size) as [col|] eqn:Ec; [|discriminate].
  destruct (grid_tiles b f (x + size) miny maxx maxy size) as [rest|] eqn:Er; [|discriminate].
  injection H as <-. apply ltb_lt in E. apply in_app_or in Hin as [Hin|Hin].
  - destruct (column_tiles_shape _ _ _ _ _ Ec Hs Hin) as (H1 & H2 & H3 & H4 & H5).
    rewrite H1. repeat split; try assumption; lra.
  - destruct (IH _ _ _ _ Er Hs Hin) as ((H1 & H2 & H3) & H4).
    repeat split; try assumption; try apply H4; lra.
Qed.

(** The number of iterations of each loop. *)
Lemma column_tiles_count (n : nat) : forall f x y,
  0 < size -> maxy - y <= inject_Z (Z.of_nat n) * size -> (n <= f)%nat ->
  exists l, column_tiles f x y maxx maxy size = Some l /\
            Z.of_nat (length l) = Z.max 0 (Qceiling ((maxy - y) / size)).
Proof.
  induction n as [|n IH]; intros f x y Hs Hn Hf.
  - exists []. assert (Hy : maxy <= y)
      by (change (inject_Z (Z.of_nat 0)) with 0 in Hn; lra).
    split.
    + destruct f; simpl; apply ltb_ge in Hy; now rewrite Hy.
    + assert (Hq : (maxy - y) / size <= 0).
      { apply Qle_shift_div_r; lra. }
      apply Qceiling_nonpos in Hq. simpl. lia.
  - destruct (ltb y maxy) eqn:E.
    + destruct f as [|f]; [lia|]. apply ltb_lt in E.
      destruct (IH f x (y + size) Hs) as (rest & Hr & Hlen); [|lia|].
      { rewrite Nat2Z.inj_succ in Hn. unfold Z.succ in Hn.
        rewrite inject_Z_plus in Hn. change (inject_Z 1) with 1 in Hn. lra. }
      eexists; split.
      * simpl. apply ltb_lt in E. rewrite E, Hr. reflexivity.
      * simpl length. rewrite Nat2Z.inj_succ, Hlen.
        rewrite (Qceiling_comp _ _ (steps_next maxy y size Hs)), Qceiling_pred.
        pose proof (Qceiling_pos _ (proj1 (steps_sign maxy y size Hs) E)). lia.
    + exists []. split.
      * destruct f; simpl; now rewrite E.
      * apply ltb_ge in E.
        assert (Hq : (maxy - y) / size <= 0).
        { apply Qle_shift_div_r; lra. }
        apply Qceiling_nonpos in Hq. simpl. lia.
Qed.

Lemma steps_enough (hi lo : Q) :
  0 < size ->
  hi - lo <= inject_Z (Z.of_nat (Z.to_nat (Qceiling ((hi - lo) / size)))) * size.
Proof.
  intros Hs. set (q := (hi - lo) / size).
  assert (Hq : q * size == hi - lo) by (unfold q; field; lra).
  assert (Hc : q <= inject_Z (Z.of_nat (Z.to_nat (Qceiling q)))).
  { apply Qle_trans with (inject_Z (Qceiling q)); [apply Qle_ceiling|].
    rewrite <- Zle_Qle. lia. }
  rewrite <- Hq. apply Qmult_le_compat_r; [exact Hc | lra].
Qed.

Lemma grid_tiles_count (m n : nat) : forall b f x miny,
  0 < size ->
  maxy - miny <= inject_Z (Z.of_nat m) * size -> (m <= b)%nat ->
  maxx - x <= inject_Z (Z.of_nat n) * size -> (n <= f)%nat ->
  exists l, grid_tiles b f x miny maxx maxy size = Some l /\
            Z.of_nat (length l) =
            (Z.max 0 (Qceiling ((maxx - x) / size)) *
             Z.max 0 (Qceiling ((maxy - miny) / size)))%Z.
Proof.
  induction n as [|n IH]; intros b f x miny Hs Hm Hb Hn Hf.
  - exists []. assert (Hx : maxx <= x)
      by (change (inject_Z (Z.of_nat 0)) with 0 in Hn; lra).
    split.
    + destruct f; simpl; apply ltb_ge in Hx; now rewrite Hx.
    + assert (Hq : (maxx - x) / size <= 0) by (apply Qle_shift_div_r; lra).
      apply Qceiling_nonpos in Hq. simpl. lia.
  - destruct (ltb x maxx) eqn:E.
    + destruct f as [|f]; [lia|].
      destruct (column_tiles_count m b x miny Hs Hm Hb) as (col & Hc & Hcl).
      destruct (IH b f (x + size) miny Hs Hm Hb) as (rest & Hr & Hlen); [|lia|].
      { rewrite Nat2Z.inj_succ in Hn. unfold Z.succ in Hn.
        rewrite inject_Z_plus in Hn. change (inject_Z 1) with 1 in Hn. lra. }
      eexists; split.
      * simpl. rewrite E, Hc, Hr. reflexivity.
      * rewrite length_app, Nat2Z.inj_add, Hcl, Hlen.
        rewrite (Qceiling_comp _ _ (steps_next maxx x size Hs)), Qceiling_pred.
        apply ltb_lt in E.
        pose proof (Qceiling_pos _ (proj1 (steps_sign maxx x size Hs) E)) as Hp.
        replace (Z.max 0 (Qceiling ((maxx - x) / size) - 1))
          with (Z.max 0 (Qceiling ((maxx - x) / size)) - 1)%Z by lia.
        ring.
    + exists []. split.
      * destruct f; simpl; now rewrite E.
      * apply ltb_ge in E.
        assert (Hq : (maxx - x) / size <= 0) by (apply Qle_shift_div_r; lra).
        apply Qceiling_nonpos in Hq. simpl. lia.
Qed.

Lemma grid_tiles_nothing (b f : nat) (x miny : Q) :
  maxx <= x -> grid_tiles b f x miny maxx maxy size = Some [].
Proof. intros H. apply ltb_ge in H. destruct f; simpl; now rewrite H. Qed.

End TilingFacts.

Lemma generate_tiles_more_fuel (f f' : nat) (minx miny maxx maxy size : Q) l :
  generate_tiles f minx miny maxx maxy size = Some l -> (f <= f')%nat ->
  generate_tiles f' minx miny maxx maxy size = Some l.
Proof. intros H Hle. exact (grid_tiles_more_fuel _ _ _ _ _ _ _ _ _ _ H Hle Hle). Qed.

(** A run that yields a tile has a positive step. *)
Lemma generate_tiles_step_positive (f : nat) (minx miny maxx maxy size : Q) l t :
  generate_tiles f minx miny maxx maxy size = Some l -> In t l -> 0 < size.
Proof.
  intros H Hin. destruct (Qlt_le_dec 0 size) as [Hs|Hs]; [exact Hs|exfalso].
  unfold generate_tiles in H. destruct (Qlt_le_dec minx maxx) as [Hx|Hx].
  - rewrite grid_tiles_diverges in H by assumption. discriminate.
  - rewrite grid_tiles_nothing in H by assumption. injection H as <-. destruct Hin.
Qed.

Lemma py_min_ge a b c : c <= a -> c <= b -> c <= py_min a b.
Proof. unfold py_min; destruct (ltb b a); auto. Qed.

Section LazyFacts.

Variables miny maxx maxy size : Q.

Lemma gen_run_app (n m : nat) : forall s,
  gen_run (n + m) miny maxx maxy size s =
  (fst (gen_run n miny maxx maxy size s) ++
   fst (gen_run m miny maxx maxy size (snd (gen_run n miny maxx maxy size s))),
   snd (gen_run m miny maxx maxy size (snd (gen_run n miny maxx maxy size s)))).
Proof.
  induction n as [|n IH]; intros s.
  - simpl. now destruct (gen_run m miny maxx maxy size s).
  - cbn [Nat.add gen_run]. destruct (gen_step miny maxx maxy size s) as [o s'].
    rewrite IH. destruct (gen_run n miny maxx maxy size s') as [l s''].
    cbn [fst snd]. destruct o; reflexivity.
Qed.

Lemma gen_run_exhausted (n : nat) :
  gen_run n miny maxx maxy size Exhausted = ([], Exhausted).
Proof. induction n as [|n IH]; [reflexivity|]. cbn [gen_run gen_step]. now rewrite IH. Qed.

(** A finished inner loop is a stretch of the lazy run, back to the outer
    test. *)
Lemma column_tiles_lazy (f : nat) : forall x y l,
  column_tiles f x y maxx maxy size = Some l ->
  exists n, gen_run n miny maxx maxy size (AtInner x y) = (l, AtOuter (x + size)).
Proof.
  induction f as [|f IH]; intros x y l H; simpl in H;
    destruct (ltb y maxy) eqn:E; try discriminate.
  - injection H as <-. exists 1%nat. cbn [gen_run gen_step]. now rewrite E.
  - destruct (column_tiles f x (y + size) maxx maxy size) as [rest|] eqn:Er;
      [|discriminate].
    injection H as <-. destruct (IH _ _ _ Er) as (n & Hn).
    exists (S n). cbn [gen_run gen_step]. now rewrite E, Hn.
  - injection H as <-. exists 1%nat. cbn [gen_run gen_step]. now rewrite E.
Qed.

Lemma grid_tiles_lazy (b f : nat) : forall x l,
  grid_tiles b f x miny maxx maxy size = Some l ->
  exists n, gen_run n miny maxx maxy size (AtOuter x) = (l, Exhausted).
Proof.
  induction f as [|f IH]; intros x l H; simpl in H;
    destruct (ltb x maxx) eqn:E; try discriminate.
  - injection H as <-. exists 1%nat. cbn [gen_run gen_step]. now rewrite E.
  - destruct (column_tiles b x miny maxx maxy size) as [col|] eqn:Ec; [|discriminate].
    destruct (grid_tiles b f (x + size) miny maxx maxy size) as [rest|] eqn:Er;
      [|discriminate].
    injection H as <-.
    destruct (column_tiles_lazy _ _ _ _ Ec) as (n1 & H1).
    destruct (IH _ _ Er) as (n2 & H2).
    exists (S (n1 + n2)). cbn [gen_run gen_step]. rewrite E, gen_run_app, H1.
    cbn [fst snd]. now rewrite H2.
  - injection H as <-. exists 1%nat. cbn [gen_run gen_step]. now rewrite E.
Qed.

Lemma gen_run_finished (n m : nat) (s : gen_state) l :
  gen_run n miny maxx maxy size s = (l, Exhausted) -> (n <= m)%nat ->
  gen_run m miny maxx maxy size s = (l, Exhausted).
Proof.
  intros H Hle. replace m with (n + (m - n))%nat by lia.
  rewrite gen_run_app, H. cbn [fst snd]. rewrite gen_run_exhausted.
  cbn [fst snd]. now rewrite app_nil_r.
Qed.

(** With a step that is not negative, whatever is yielded from a state the
    generator can stand in lies in the bounds and is clipped. *)
Lemma gen_run_in_bounds (minx : Q) (n : nat) : forall s t,
  0 <= size -> gen_state_ok minx miny maxx s ->
  In t (fst (gen_run n miny maxx maxy size s)) ->
  in_bounds t minx miny maxx maxy /\
  bmaxx t = py_min (bminx t + size) maxx /\
  bmaxy t = py_min (bminy t + size) maxy.
Proof.
  induction n as [|n IH]; intros s t Hs Hok Hin; [destruct Hin|].
  cbn [gen_run] in Hin.
  destruct (gen_step miny maxx maxy size s) as [o s'] eqn:Est.
  destruct (gen_run n miny maxx maxy size s') as [l s''] eqn:Er.
  assert (Hok' : gen_state_ok minx miny maxx s').
  { destruct s as [x|x y|]; cbn [gen_step] in Est.
    - destruct (ltb x maxx) eqn:E; injection Est as <- <-; [|exact I].
      apply ltb_lt in E. simpl in *. repeat split; lra.
    - destruct Hok as (H1 & H2 & H3).
      destruct (ltb y maxy); injection Est as <- <-; simpl; repeat split; lra.
    - injection Est as <- <-. exact I. }
  assert (Hrest : In t l -> in_bounds t minx miny maxx maxy /\
                            bmaxx t = py_min (bminx t + size) maxx /\
                            bmaxy t = py_min (bminy t + size) maxy).
  { intros Hl. apply (IH s' t Hs Hok'). now rewrite Er. }
  cbn [fst] in Hin. destruct o as [t0|]; [|exact (Hrest Hin)].
  destruct Hin as [<-|Hin]; [|exact (Hrest Hin)].
  destruct s as [x|x y|]; cbn [gen_step] in Est.
  - destruct (ltb x maxx); discriminate.
  - destruct Hok as (H1 & H2 & H3).
    destruct (ltb y maxy) eqn:E; [|discriminate]. injection Est as <- <-.
    apply ltb_lt in E. unfold in_bounds. cbn [bminx bminy bmaxx bmaxy].
    pose proof (py_min_le_r (x + size) maxx).
    pose proof (py_min_le_r (y + size) maxy).
    assert (x <= py_min (x + size) maxx) by (apply py_min_ge; lra).
    assert (y <= py_min (y + size) maxy) by (apply py_min_ge; lra).
    repeat split; assumption.
  - discriminate.
Qed.

End LazyFacts.

(** C5, as the script has it: the generator yields one sequence, however
    far it is consumed and whatever fuel lets it finish; with a step that is
    not negative every tile it ever yields lies within the bounds, each upper
    edge being the lower edge plus the step, clipped to the bound; and
    [generate_tiles(0,0,2,2,1)] yields the four unit tiles in column order and
    is then exhausted. *)
Theorem generate_tiles_deterministic_clipped :
  (forall n m minx miny maxx maxy size,
     exists rest,
       yielded (n + m) minx miny maxx maxy size =
       yielded n minx miny maxx maxy size ++ rest) /\
  (forall f minx miny maxx maxy size l,
     generate_tiles f minx miny maxx maxy size = Some l ->
     exists n, forall m, (n <= m)%nat ->
       gen_run m miny maxx maxy size (AtOuter minx) = (l, Exhausted)) /\
  (forall f1 f2 minx miny maxx maxy size l1 l2,
     generate_tiles f1 minx miny maxx maxy size = Some l1 ->
     generate_tiles f2 minx miny maxx maxy size = Some l2 -> l1 = l2) /\
  (forall n minx miny maxx maxy size t,
     0 <= size -> In t (yielded n minx miny maxx maxy size) ->
     in_bounds t minx miny maxx maxy /\
     bmaxx t = py_min (bminx t + size) maxx /\
     bmaxy t = py_min (bminy t + size) maxy) /\
  (forall n, (9 <= n)%nat ->
     gen_run n 0 2 2 1 (AtOuter 0) =
     ([(0, 0, 1, 1); (0, 1, 1, 2); (1, 0, 2, 1); (1, 1, 2, 2)], Exhausted)) /\
  (forall f, (2 <= f)%nat ->
     generate_tiles f 0 0 2 2 1 =
     Some [(0, 0, 1, 1); (0, 1, 1, 2); (1, 0, 2, 1); (1, 1, 2, 2)]).
Proof.
  split; [|split; [|split; [|split; [|split]]]].
  - intros n m minx miny maxx maxy size. unfold yielded.
    rewrite gen_run_app. cbn [fst]. eauto.
  - intros f minx miny maxx maxy size l H.
    destruct (grid_tiles_lazy _ _ _ _ _ _ _ _ H) as (n & Hn).
    exists n. intros m Hm. exact (gen_run_finished _ _ _ _ _ _ _ _ Hn Hm).
  - intros f1 f2 minx miny maxx maxy size l1 l2 H1 H2.
    apply generate_tiles_more_fuel with (f' := Nat.max f1 f2) in H1; [|lia].
    apply generate_tiles_more_fuel with (f' := Nat.max f1 f2) in H2; [|lia].
    congruence.
  - intros n minx miny maxx maxy size t Hs Hin. unfold yielded in Hin.
    apply (gen_run_in_bounds _ _ _ _ minx n (AtOuter minx) t Hs); [|exact Hin].
    simpl. lra.
  - intros n Hn. apply gen_run_finished with (n := 9%nat); [reflexivity|exact Hn].
  - intros f Hf. apply generate_tiles_more_fuel with (f := 2%nat); [reflexivity|exact Hf].
Qed.

Lemma generate_tiles_deterministic_clipped_witness :
  in_bounds (2, 1, 5 # 2, 2) 0 0 (5 # 2) 2 /\
  5 # 2 = py_min (2 + 1) (5 # 2) /\ 2 = py_min (1 + 1) 2.
Proof.
  apply (proj1 (proj2 (proj2 (proj2 generate_tiles_deterministic_clipped)))
           12%nat 0 0 (5 # 2) 2 1 (2, 1, 5 # 2, 2)).
  - unfold Qle. simpl. lia.
  - vm_compute. auto 10.
Defined.

(** C5 as the specification words it fails for a negative step: consumed
    for three steps, [generate_tiles(0,0,2,2,-1)] has yielded (0,0,-1,-1) and
    (0,-1,-1,-2), which leave the bounds. *)
Lemma negative_step_leaves_the_bounds : ~ yields_stay_in_bounds 0 0 2 2 (-1).
Proof.
  intros H.
  destruct (H 3%nat (0, -1, -1, -2)) as [_ [Hy _]].
  - vm_compute. auto.
  - unfold Qle in Hy. simpl in Hy. lia.
Qed.

(** C9: with [minx < maxx], [miny < maxy] and a positive step the generator
    finishes and yields [ceil((maxx-minx)/size) * ceil((maxy-miny)/size)]
    tiles; with [minx < maxx] and a step [<= 0] it never finishes. *)
Theorem generate_tiles_count_or_divergence (minx miny maxx maxy size : Q) :
  minx < maxx ->
  (0 < size -> miny < maxy ->
   exists fuel l,
     (forall fuel', (fuel <= fuel')%nat ->
        generate_tiles fuel' minx miny maxx maxy size = Some l) /\
     Z.of_nat (length l) =
     (Qceiling ((maxx - minx) / size) * Qceiling ((maxy - miny) / size))%Z) /\
  (size <= 0 -> forall fuel, generate_tiles fuel minx miny maxx maxy size = None).
Proof.
  intros Hx. split.
  - intros Hs Hy.
    set (n := Z.to_nat (Qceiling ((maxx - minx) / size))).
    set (m := Z.to_nat (Qceiling ((maxy - miny) / size))).
    destruct (grid_tiles_count maxx maxy size m n (Nat.max m n) (Nat.max m n) minx miny Hs)
      as (l & Hl & Hlen); try lia; try (apply steps_enough; exact Hs).
    exists (Nat.max m n), l. split.
    + intros fuel' Hle. exact (generate_tiles_more_fuel _ _ _ _ _ _ _ _ Hl Hle).
    + rewrite Hlen.
      pose proof (Qceiling_pos _ (proj1 (steps_sign maxx minx size Hs) Hx)).
      pose proof (Qceiling_pos _ (proj1 (steps_sign maxy miny size Hs) Hy)).
      lia.
  - intros Hs fuel. apply grid_tiles_diverges; assumption.
Qed.

Lemma generate_tiles_count_or_divergence_witness :
  (exists fuel l,
     (forall fuel', (fuel <= fuel')%nat ->
        generate_tiles fuel' 0 0 (5 # 2) 2 1 = Some l) /\
     Z.of_nat (length l) =
     (Qceiling (((5 # 2) - 0) / 1) * Qceiling ((2 - 0) / 1))%Z) /\
  (forall fuel, generate_tiles fuel 0 0 1 1 0 = None).
Proof.
  split.
  - apply (proj1 (generate_tiles_count_or_divergence 0 0 (5 # 2) 2 1 eq_refl));
      reflexivity.
  - apply (proj2 (generate_tiles_count_or_divergence 0 0 1 1 0 eq_refl)).
    unfold Qle. simpl. lia.
Defined.

(** ** Quartering *)

Lemma children_eq (b : bbox) :
  children b = [sub_bbox b 0 0; sub_bbox b 0 1; sub_bbox b 1 0; sub_bbox b 1 1].
Proof. reflexivity. Qed.

Lemma half_twice (lo hi : Q) : 2 * ((hi - lo) / 2) == hi - lo.
Proof. field. Qed.

(** Expose the coordinates of [b] and name the two half-extents, so that
    what remains is linear. *)
Ltac coords b :=
  let minx := fresh "minx" in let miny := fresh "miny" in
  let maxx := fresh "maxx" in let maxy := fresh "maxy" in
  destruct b as [[[minx miny] maxx] maxy];
  unfold inside, interior, sub_bbox, TILE_DIVISION_FACTOR in *;
  cbn [bminx bminy bmaxx bmaxy Z.add Pos.add Pos.succ] in *;
  change (inject_Z 0) with 0 in *; change (inject_Z 1) with 1 in *;
  change (inject_Z 2) with 2 in *;
  pose proof (half_twice minx maxx); pose proof (half_twice miny maxy);
  generalize dependent ((maxx - minx) / 2); generalize dependent ((maxy - miny) / 2);
  intros.

Lemma children_cover (b : bbox) (px py : Q) :
  inside px py b <-> Exists (inside px py) (children b).
Proof.
  rewrite children_eq, !Exists_cons, Exists_nil. coords b.
  split; [intros | intros [?|[?|[?|[?|[]]]]]; lra].
  destruct (Qlt_le_dec px (minx + 1 * q0)), (Qlt_le_dec py (miny + 1 * q)).
  - left. lra.
  - right; left; lra.
  - do 2 right; left; lra.
  - do 3 right; left; lra.
Qed.

Lemma children_disjoint (b : bbox) : ForallOrdPairs disjoint_interiors (children b).
Proof.
  rewrite children_eq.
  repeat constructor; unfold disjoint_interiors; intros px py H; coords b; lra.
Qed.

Lemma child_interior (b c : bbox) (px py : Q) :
  In c (children b) -> interior px py c -> interior px py b.
Proof.
  rewrite children_eq. intros [<-|[<-|[<-|[<-|[]]]]] H; coords b; lra.
Qed.

Lemma children_area (b : bbox) : Forall (fun c => area c == area b / 4) (children b).
Proof.
  rewrite children_eq. destruct b as [[[minx miny] maxx] maxy].
  repeat constructor; unfold area, sub_bbox, TILE_DIVISION_FACTOR;
    cbn [bminx bminy bmaxx bmaxy Z.add Pos.add Pos.succ];
    change (inject_Z 0) with 0; change (inject_Z 1) with 1;
    change (inject_Z 2) with 2; field.
Qed.

(** The children are the four quadrants around the centre of the parent. *)
Lemma children_quadrants (b : bbox) :
  let mx := (bminx b + bmaxx b) / 2 in
  let my := (bminy b + bmaxy b) / 2 in
  Forall2 bbox_eq (children b)
    [(bminx b, bminy b, mx, my); (bminx b, my, mx, bmaxy b);
     (mx, bminy b, bmaxx b, my); (mx, my, bmaxx b, bmaxy b)].
Proof.
  rewrite children_eq. destruct b as [[[minx miny] maxx] maxy].
  repeat constructor; unfold sub_bbox, TILE_DIVISION_FACTOR;
    cbn [bminx bminy bmaxx bmaxy Z.add Pos.add Pos.succ];
    change (inject_Z 0) with 0; change (inject_Z 1) with 1;
    change (inject_Z 2) with 2; field.
Qed.

Lemma FOP_app {A} (R : A -> A -> Prop) (l1 l2 : list A) :
  ForallOrdPairs R l1 -> ForallOrdPairs R l2 ->
  (forall a b, In a l1 -> In b l2 -> R a b) ->
  ForallOrdPairs R (l1 ++ l2).
Proof.
  induction 1 as [|a l Ha Hl IH]; intros H2 Hx; simpl; [exact H2|].
  constructor.
  - apply Forall_app; split; [exact Ha|].
    apply Forall_forall. intros b Hb. apply Hx; [now left|exact Hb].
  - apply IH; [exact H2|]. intros x y Hx1 Hy. apply Hx; [now right|exact Hy].
Qed.

Lemma FOP_flat_map {A B} (R : B -> B -> Prop) (f : A -> list B) (l : list A) :
  (forall a, In a l -> ForallOrdPairs R (f a)) ->
  ForallOrdPairs (fun a a' => forall x y, In x (f a) -> In y (f a') -> R x y) l ->
  ForallOrdPairs R (flat_map f l).
Proof.
  intros Hin H. induction H as [|a l Ha Hl IH]; simpl; [constructor|].
  apply FOP_app.
  - apply Hin. now left.
  - apply IH. intros a' Ha'. apply Hin. now right.
  - intros x y Hx Hy. apply in_flat_map in Hy as (a' & Ha' & Hy).
    rewrite Forall_forall in Ha. exact (Ha a' Ha' x y Hx Hy).
Qed.

Lemma leaves_length (d : nat) : forall b, length (leaves d b) = (4 ^ d)%nat.
Proof.
  induction d as [|d IH]; intros b; [reflexivity|].
  cbn [leaves]. rewrite children_eq. cbn [flat_map].
  rewrite !length_app, !IH. simpl. lia.
Qed.

Lemma leaves_cover (d : nat) : forall b px py,
  inside px py b <-> Exists (inside px py) (leaves d b).
Proof.
  induction d as [|d IH]; intros b px py.
  - simpl. rewrite Exists_cons, Exists_nil. tauto.
  - cbn [leaves]. rewrite children_cover, Exists_flat_map.
    rewrite !Exists_exists. split; intros (c & Hc & H); exists c; split; auto;
      now apply IH.
Qed.

Lemma leaf_interior (d : nat) : forall b l px py,
  In l (leaves d b) -> interior px py l -> interior px py b.
Proof.
  induction d as [|d IH]; intros b l px py Hin H.
  - destruct Hin as [<-|[]]. exact H.
  - cbn [leaves] in Hin. apply in_flat_map in Hin as (c & Hc & Hl).
    apply (child_interior b c); [exact Hc|]. exact (IH _ _ _ _ Hl H).
Qed.

Lemma leaves_disjoint (d : nat) : forall b,
  ForallOrdPairs disjoint_interiors (leaves d b).
Proof.
  induction d as [|d IH]; intros b.
  - repeat constructor.
  - cbn [leaves]. apply FOP_flat_map; [intros; apply IH|].
    pose proof (children_disjoint b) as Hd.
    induction Hd as [|c l Hc Hl IHl]; constructor; [|exact IHl].
    rewrite Forall_forall in *. intros c' Hc' x y Hx Hy px py [H1 H2].
    apply (Hc c' Hc' px py). split; eapply leaf_interior; eassumption.
Qed.

(** ** Reading traces piecewise *)

Local Open Scope Z_scope.

Lemma count_requests_app (t1 t2 : list event) :
  count_requests (t1 ++ t2) = (count_requests t1 + count_requests t2)%nat.
Proof. unfold count_requests. now rewrite filter_app, length_app. Qed.

Lemma count_sleeps_app (t1 t2 : list event) :
  count_sleeps (t1 ++ t2) = (count_sleeps t1 + count_sleeps t2)%nat.
Proof. unfold count_sleeps. now rewrite filter_app, length_app. Qed.

Lemma accepted_app (t1 t2 : list event) :
  accepted (t1 ++ t2) = accepted t1 ++ accepted t2.
Proof. apply flat_map_app. Qed.

Lemma visited_app (t1 t2 : list event) :
  visited (t1 ++ t2) = visited t1 ++ visited t2.
Proof. apply flat_map_app. Qed.

Lemma writes_app (t1 t2 : list event) : writes (t1 ++ t2) = writes t1 ++ writes t2.
Proof. apply filter_app. Qed.

Lemma accepts_spec (gdf : GeoDataFrame) (d : Z) :
  accepts gdf d = true <-> len gdf < MAX_FEATURES \/ d >= MAX_DEPTH.
Proof.
  unfold accepts. rewrite orb_true_iff, Z.ltb_lt, Z.geb_le. lia.
Qed.

Lemma accepts_false (gdf : GeoDataFrame) (d : Z) :
  accepts gdf d = false <-> MAX_FEATURES <= len gdf /\ d < MAX_DEPTH.
Proof.
  unfold accepts. rewrite orb_false_iff, Z.ltb_ge, Z.geb_leb, Z.leb_gt. tauto.
Qed.

Lemma len_keep_columns (gdf : GeoDataFrame) : len (keep_columns gdf) = len gdf.
Proof. unfold len, keep_columns, reindex. simpl. now rewrite length_map. Qed.

(** ** [process_tile] *)

Lemma bind_Some {World A B} (m : M World A) (k : A -> M World B) w b w2 t :
  bind m k w = Some (b, w2, t) ->
  exists a w1 t1 t2,
    m w = Some (a, w1, t1) /\ k a w1 = Some (b, w2, t2) /\ t = t1 ++ t2.
Proof.
  unfold bind. destruct (m w) as [[[a w1] t1]|]; [|discriminate].
  destruct (k a w1) as [[[b' w2'] t2]|] eqn:E; [|discriminate].
  intros H. injection H as <- <- <-. now exists a, w1, t1, t2.
Qed.

(** Take a successful computation apart along its binds. *)
Ltac inv_M :=
  repeat match goal with
  | H : bind _ _ _ = Some _ |- _ =>
      apply bind_Some in H; destruct H as (? & ? & ? & ? & ? & H & ?); cbv beta in H
  | H : ret _ _ = Some _ |- _ => unfold ret in H; inversion H; clear H; subst
  | H : emit _ _ = Some _ |- _ => unfold emit in H; inversion H; clear H; subst
  | H : for_each _ _ _ _ = Some _ |- _ => progress cbn [for_each] in H
  | H : out_of_fuel _ = Some _ |- _ => discriminate H
  end; subst.

Section TileFacts.

Context {World : Type}.
Variable wfs_request : bbox -> World -> option GeoDataFrame * World.

(** Every successful call is a run of the big-step reading. *)
Lemma process_tile_run (fuel : nat) : forall b d w r w' t,
  process_tile wfs_request fuel b d w = Some (r, w', t) ->
  tile_run wfs_request b d w r w' t.
Proof.
  induction fuel as [|fuel IH]; intros b d w r w' t H; [discriminate|].
  cbn [process_tile] in H. apply bind_Some in H as (g & w1 & t1 & t2 & Hg & H & ->).
  unfold get_features in Hg.
  destruct (wfs_request b w) as [[gdf|] w0] eqn:E; injection Hg as <- <- <-.
  - destruct (accepts gdf d) eqn:Ea.
    + inv_M. now apply run_accepted.
    + change (range TILE_DIVISION_FACTOR) with [0; 1] in H. inv_M.
      rewrite ?app_nil_r, <- ?app_assoc.
      eapply (run_subdivided wfs_request b d w); eauto.
  - inv_M. now apply run_failed.
Qed.

(** A call returns as soon as the fuel exceeds the depth left. *)
Lemma process_tile_total (fuel : nat) : forall b d w,
  (0 < fuel)%nat -> MAX_DEPTH - d < Z.of_nat fuel ->
  exists r w' t, process_tile wfs_request fuel b d w = Some (r, w', t).
Proof.
  induction fuel as [|fuel IH]; intros b d w Hpos Hf; [lia|].
  - cbn [process_tile]. unfold bind at 1, get_features.
    destruct (wfs_request b w) as [[gdf|] w0] eqn:E.
    + unfold bind at 1, emit. destruct (accepts gdf d) eqn:Ea.
      * unfold ret. eauto.
      * apply accepts_false in Ea as [_ Hd].
        assert (Hf' : MAX_DEPTH - (d + 1) < Z.of_nat fuel) by lia.
        assert (Hp' : (0 < fuel)%nat) by lia.
        change (range TILE_DIVISION_FACTOR) with [0; 1]. cbn [for_each].
        unfold bind, emit, ret.
        destruct (IH (sub_bbox b 0 0) (d + 1) w0 Hp' Hf') as (r1 & w1 & t1 & ->).
        destruct (IH (sub_bbox b 0 1) (d + 1) w1 Hp' Hf') as (r2 & w2 & t2 & ->).
        destruct (IH (sub_bbox b 1 0) (d + 1) w2 Hp' Hf') as (r3 & w3 & t3 & ->).
        destruct (IH (sub_bbox b 1 1) (d + 1) w3 Hp' Hf') as (r4 & w4 & t4 & ->).
        eauto.
    + unfold bind, emit, ret. eauto.
Qed.

End TileFacts.

Section RunFacts.

Context {World : Type}.
Variable wfs_request : bbox -> World -> option GeoDataFrame * World.

(** A run is determined by its tile, depth and starting world. *)
Lemma tile_run_functional b d w r w' t :
  tile_run wfs_request b d w r w' t ->
  forall r2 w2 t2, tile_run wfs_request b d w r2 w2 t2 -> r2 = r /\ w2 = w' /\ t2 = t.
Proof.
  induction 1 as [b d w w1 E|b d w w1 gdf E Ea
                 |b d w w1 gdf r1 w2 t1 r2 w3 t2 r3 w4 t3 r4 w5 t4 E Ea
                    _ IH1 _ IH2 _ IH3 _ IH4];
    intros r' w'' t' H'; inversion H'; subst;
    repeat match goal with
    | H1 : wfs_request ?b ?w = _, H2 : wfs_request ?b ?w = _ |- _ =>
        rewrite H1 in H2; inversion H2; subst; clear H2
    end; try congruence; auto.
  repeat match goal with
  | IH : forall r2 w2 t2, tile_run wfs_request ?c ?d ?w r2 w2 t2 -> _,
    H : tile_run wfs_request ?c ?d ?w _ _ _ |- _ =>
      destruct (IH _ _ _ H) as (-> & -> & ->); clear IH
  end.
  auto.
Qed.

(** One request per call, and the other way round. *)
Lemma tile_run_requests_visits b d w r w' t :
  tile_run wfs_request b d w r w' t -> count_requests t = length (visited t).
Proof.
  induction 1; try reflexivity.
  rewrite !count_requests_app, !visited_app, !length_app. simpl. lia.
Qed.

(** A call that can still subdivide [k] times issues at most
    [max_requests k] requests. *)
Lemma tile_run_requests b d w r w' t :
  tile_run wfs_request b d w r w' t ->
  forall k, MAX_DEPTH <= d + Z.of_nat k -> (count_requests t <= max_requests k)%nat.
Proof.
  induction 1 as [b d w w1 E|b d w w1 gdf E Ea
                 |b d w w1 gdf r1 w2 t1 r2 w3 t2 r3 w4 t3 r4 w5 t4 E Ea
                    _ IH1 _ IH2 _ IH3 _ IH4]; intros k Hk.
  - unfold count_requests. destruct k; simpl; lia.
  - unfold count_requests. destruct k; simpl; lia.
  - apply accepts_false in Ea as [_ Hd]. destruct k as [|k]; [lia|].
    assert (Hk' : MAX_DEPTH <= d + 1 + Z.of_nat k) by lia.
    specialize (IH1 k Hk'). specialize (IH2 k Hk').
    specialize (IH3 k Hk'). specialize (IH4 k Hk').
    rewrite !count_requests_app. cbn [max_requests].
    change (count_requests [EvRequest b; EvVisit b d (Some gdf);
                            EvPrint (MsgSubdivision b (d + 1))]) with 1%nat.
    lia.
Qed.

(** Calls happen at the depth of the root call or below it, never below
    [MAX_DEPTH] unless the root already is. *)
Lemma tile_run_depths b d w r w' t :
  tile_run wfs_request b d w r w' t ->
  Forall (fun v => d <= snd v <= Z.max d MAX_DEPTH) (visited t).
Proof.
  induction 1 as [b d w w1 E|b d w w1 gdf E Ea
                 |b d w w1 gdf r1 w2 t1 r2 w3 t2 r3 w4 t3 r4 w5 t4 E Ea
                    _ IH1 _ IH2 _ IH3 _ IH4].
  - repeat constructor; simpl; lia.
  - repeat constructor; simpl; lia.
  - apply accepts_false in Ea as [_ Hd].
    rewrite !visited_app, !Forall_app. repeat split.
    + repeat constructor; simpl; lia.
    + eapply Forall_impl; [|exact IH1]. simpl. lia.
    + eapply Forall_impl; [|exact IH2]. simpl. lia.
    + eapply Forall_impl; [|exact IH3]. simpl. lia.
    + eapply Forall_impl; [|exact IH4]. simpl. lia.
Qed.

(** No pause inside a call. *)
Lemma tile_run_no_sleep b d w r w' t :
  tile_run wfs_request b d w r w' t -> count_sleeps t = 0%nat.
Proof.
  induction 1; try reflexivity.
  rewrite !count_sleeps_app. simpl. lia.
Qed.

Lemma tile_run_no_write b d w r w' t :
  tile_run wfs_request b d w r w' t -> writes t = [].
Proof.
  induction 1 as [| |b d w w1 gdf r1 w2 t1 r2 w3 t2 r3 w4 t3 r4 w5 t4 E Ea
                    _ IH1 _ IH2 _ IH3 _ IH4]; try reflexivity.
  rewrite !writes_app, IH1, IH2, IH3, IH4. reflexivity.
Qed.

(** The returned sequence is the sequence of accepted record sets of the
    trace. *)
Lemma tile_run_accepted b d w r w' t :
  tile_run wfs_request b d w r w' t -> r = map snd (accepted t).
Proof.
  induction 1 as [b d w w1 E|b d w w1 gdf E Ea
                 |b d w w1 gdf r1 w2 t1 r2 w3 t2 r3 w4 t3 r4 w5 t4 E Ea
                    _ IH1 _ IH2 _ IH3 _ IH4].
  - reflexivity.
  - simpl. rewrite Ea. reflexivity.
  - rewrite !accepted_app, !map_app, <- IH1, <- IH2, <- IH3, <- IH4.
    simpl. rewrite Ea. reflexivity.
Qed.

(** The tiles fetched [k] levels below a call are leaves of the [k]-fold
    subdivision of its region. *)
Lemma tile_run_leaves b d w r w' t :
  tile_run wfs_request b d w r w' t ->
  forall b' d', In (b', d') (visited t) ->
  d <= d' /\ In b' (leaves (Z.to_nat (d' - d)) b).
Proof.
  induction 1 as [b d w w1 E|b d w w1 gdf E Ea
                 |b d w w1 gdf r1 w2 t1 r2 w3 t2 r3 w4 t3 r4 w5 t4 E Ea
                    _ IH1 _ IH2 _ IH3 _ IH4]; intros b' d' Hin.
  - destruct Hin as [Heq|[]]. injection Heq as <- <-.
    rewrite Z.sub_diag. simpl. split; [lia|now left].
  - destruct Hin as [Heq|[]]. injection Heq as <- <-.
    rewrite Z.sub_diag. simpl. split; [lia|now left].
  - rewrite !visited_app in Hin. cbn [visited flat_map app] in Hin.
    destruct Hin as [Heq|Hin].
    { injection Heq as <- <-. rewrite Z.sub_diag. simpl. split; [lia|now left]. }
    assert (Hsub : forall c, In c (children b) ->
              d + 1 <= d' /\ In b' (leaves (Z.to_nat (d' - (d + 1))) c) ->
              d <= d' /\ In b' (leaves (Z.to_nat (d' - d)) b)).
    { intros c Hc [Hd Hl]. split; [lia|].
      replace (Z.to_nat (d' - d)) with (S (Z.to_nat (d' - (d + 1)))) by lia.
      cbn [leaves]. apply in_flat_map. eauto. }
    rewrite children_eq in Hsub.
    repeat (apply in_app_or in Hin as [Hin|Hin]).
    + apply (Hsub (sub_bbox b 0 0)); [simpl; auto|]. now apply IH1.
    + apply (Hsub (sub_bbox b 0 1)); [simpl; auto|]. now apply IH2.
    + apply (Hsub (sub_bbox b 1 0)); [simpl; auto|]. now apply IH3.
    + apply (Hsub (sub_bbox b 1 1)); [simpl; auto|]. now apply IH4.
Qed.

End RunFacts.

(** ** The harvest loop *)

Lemma prints_only (t : list event) :
  Forall (fun e => is_print e = true) t ->
  count_sleeps t = 0%nat /\ count_requests t = 0%nat /\
  accepted t = [] /\ visited t = [] /\ writes t = [].
Proof.
  induction 1 as [|e t He _ IH]; [repeat split|].
  destruct e; try discriminate He. exact IH.
Qed.

Lemma sum_len_app (l1 l2 : list GeoDataFrame) :
  sum_len (l1 ++ l2) = sum_len l1 + sum_len l2.
Proof. induction l1 as [|g l1 IH]; simpl; [reflexivity|]. rewrite IH. lia. Qed.

Lemma nonempty_sets_app (l1 l2 : list GeoDataFrame) :
  nonempty_sets (l1 ++ l2) = nonempty_sets l1 ++ nonempty_sets l2.
Proof. apply filter_app. Qed.

Lemma nonempty_sets_positive (l : list GeoDataFrame) :
  Forall (fun gdf => 0 < len gdf) (nonempty_sets l).
Proof.
  apply Forall_forall. intros g Hg. apply filter_In in Hg as [_ Hg].
  now apply Z.gtb_lt in Hg.
Qed.

Lemma sum_len_nonempty_sets (l : list GeoDataFrame) :
  sum_len (nonempty_sets l) = sum_len l.
Proof.
  induction l as [|g l IH]; [reflexivity|]. simpl.
  destruct (len g >? 0) eqn:E; simpl; rewrite IH; [reflexivity|].
  assert (0 <= len g) by (unfold len; lia).
  rewrite Z.gtb_ltb, Z.ltb_ge in E. lia.
Qed.

Lemma sum_len_zero (l : list GeoDataFrame) :
  sum_len l = 0 <-> nonempty_sets l = [].
Proof.
  induction l as [|g l IH]; [simpl; tauto|]. simpl.
  assert (0 <= len g) by (unfold len; lia).
  assert (0 <= sum_len l).
  { clear. induction l as [|g l IH]; simpl; [lia|]. unfold len at 1. lia. }
  destruct (len g >? 0) eqn:E.
  - apply Z.gtb_lt in E. split; [lia|discriminate].
  - rewrite Z.gtb_ltb, Z.ltb_ge in E. rewrite <- IH. lia.
Qed.

(** Concatenation keeps every row. *)
Lemma len_concat (l : list GeoDataFrame) : len (concat l) = sum_len l.
Proof.
  unfold len, concat. cbn [rows]. generalize (union_columns l) as cols.
  induction l as [|g l IH]; intros cols; [reflexivity|].
  cbn [flat_map sum_len]. rewrite length_app, Nat2Z.inj_add, IH.
  unfold reindex, len. cbn [rows]. now rewrite length_map.
Qed.

Section HarvestFacts.

Context {World : Type}.
Variable wfs_request : bbox -> World -> option GeoDataFrame * World.

(** Lines 106-110 append the non-empty record sets, add their sizes, keep
    the world and only print. *)
Lemma collect_spec (l : list GeoDataFrame) : forall a (w : World) a' w' t,
  collect l a w = Some (a', w', t) ->
  w' = w /\
  all_features a' = all_features a ++ nonempty_sets l /\
  total_collected a' = total_collected a + sum_len (nonempty_sets l) /\
  Forall (fun e => is_print e = true) t.
Proof.
  unfold collect. induction l as [|g l IH]; intros a w a' w' t H.
  - inv_M. simpl. rewrite app_nil_r, Z.add_0_r. auto.
  - cbn [for_each] in H.
    apply bind_Some in H as (a1 & w1 & t1 & t2 & H1 & H2 & ->).
    apply IH in H2 as (-> & Hf & Ht & Hp). cbn [nonempty_sets filter].
    fold (nonempty_sets l). destruct (len g >? 0) eqn:E.
    + inv_M. cbn [all_features total_collected] in *.
      rewrite Hf, Ht, <- app_assoc. cbn [sum_len fold_right]. fold (sum_len (nonempty_sets l)).
      repeat split; auto; try lia.
      rewrite app_nil_r. constructor; [reflexivity|exact Hp].
    + inv_M. auto.
Qed.

Lemma collect_total (l : list GeoDataFrame) : forall a (w : World),
  exists a' t, collect l a w = Some (a', w, t).
Proof.
  unfold collect. induction l as [|g l IH]; intros a w.
  - eexists _, _. reflexivity.
  - cbn [for_each]. destruct (len g >? 0).
    + destruct (IH {| all_features := all_features a ++ [g];
                      total_collected := total_collected a + len g |} w)
        as (a' & t & Heq).
      eexists _, _. cbv beta iota zeta delta [bind emit ret] in *. rewrite Heq. reflexivity.
    + destruct (IH a w) as (a' & t & Heq).
      eexists _, _. cbv beta iota zeta delta [bind emit ret] in *. rewrite Heq. reflexivity.
Qed.

(** One iteration of the loop, taken apart. *)
Lemma harvest_tile_inv fuel total i b a (w : World) a' w' t :
  harvest_tile wfs_request fuel total i b a w = Some (a', w', t) ->
  exists r t1,
    process_tile wfs_request fuel b 0 w = Some (r, w', t1) /\
    ((r = [] /\ a' = a /\ t = EvPrint (MsgTileStart (i + 1) total b) :: t1) \/
     (r <> [] /\ exists tc,
        collect r a w' = Some (a', w', tc) /\
        t = EvPrint (MsgTileStart (i + 1) total b) :: t1 ++ tc ++ [EvSleep 1])).
Proof.
  unfold harvest_tile. intros H.
  apply bind_Some in H as ([] & w0 & t0 & t2 & H0 & H & ->).
  unfold emit in H0. injection H0 as <- <-.
  apply bind_Some in H as (r & w1 & t1 & t3 & Hr & H & ->).
  exists r, t1. destruct r as [|g r].
  - unfold ret in H. injection H as <- <- <-.
    split; [exact Hr|]. left. now rewrite app_nil_r.
  - apply bind_Some in H as (a1 & w2 & tc & t4 & Hc & H & ->).
    apply bind_Some in H as ([] & w3 & t5 & t6 & H5 & H & ->).
    unfold emit in H5. injection H5 as <- <-.
    unfold ret in H. injection H as <- <- <-.
    pose proof (collect_spec _ _ _ _ _ _ Hc) as (-> & _).
    split; [exact Hr|]. right. split; [discriminate|].
    exists tc. split; [exact Hc|]. now rewrite app_nil_r.
Qed.

End HarvestFacts.

Section LoopFacts.

Context {World : Type}.
Variable wfs_request : bbox -> World -> option GeoDataFrame * World.

(** What one iteration contributes. *)
Lemma harvest_tile_spec fuel total i b a (w : World) a' w' t :
  harvest_tile wfs_request fuel total i b a w = Some (a', w', t) ->
  all_features a' = all_features a ++ nonempty_sets (map snd (accepted t)) /\
  total_collected a' =
    total_collected a + sum_len (nonempty_sets (map snd (accepted t))) /\
  Forall (fun v => 0 <= snd v <= MAX_DEPTH) (visited t) /\
  writes t = [] /\
  (count_sleeps t <= 1)%nat /\
  (count_requests t <= 85)%nat.
Proof.
  intros H. apply harvest_tile_inv in H as (r & t1 & Hr & H).
  apply process_tile_run in Hr.
  pose proof (tile_run_accepted _ _ _ _ _ _ _ Hr) as Hacc.
  pose proof (tile_run_depths _ _ _ _ _ _ _ Hr) as Hd.
  pose proof (tile_run_no_sleep _ _ _ _ _ _ _ Hr) as Hs.
  pose proof (tile_run_no_write _ _ _ _ _ _ _ Hr) as Hw.
  pose proof (tile_run_requests _ _ _ _ _ _ _ Hr 3%nat ltac:(unfold MAX_DEPTH; simpl; lia)) as Hq.
  change (max_requests 3) with 85%nat in Hq.
  change (Z.max 0 MAX_DEPTH) with MAX_DEPTH in Hd.
  destruct H as [(-> & -> & ->)|(Hne & tc & Hc & ->)].
  - change (EvPrint (MsgTileStart (i + 1) total b) :: t1)
      with ([EvPrint (MsgTileStart (i + 1) total b)] ++ t1).
    rewrite accepted_app, visited_app, writes_app, count_sleeps_app, count_requests_app.
    cbn [accepted visited flat_map app]. rewrite <- Hacc, Hw, Hs.
    simpl. rewrite app_nil_r, Z.add_0_r.
    repeat split; auto; unfold count_requests in *; simpl; lia.
  - apply collect_spec in Hc as (_ & Hf & Ht & Hp).
    apply prints_only in Hp as (Ps & Pq & Pa & Pv & Pw).
    change (EvPrint (MsgTileStart (i + 1) total b) :: t1 ++ tc ++ [EvSleep 1])
      with ([EvPrint (MsgTileStart (i + 1) total b)] ++ t1 ++ tc ++ [EvSleep 1]).
    rewrite !accepted_app, !visited_app, !writes_app, !count_sleeps_app,
      !count_requests_app, Pa, Pv, Pw, Ps, Pq, Hw, Hs.
    cbn [accepted visited flat_map app]. rewrite !app_nil_r, <- Hacc.
    repeat split; auto; unfold count_requests, count_sleeps in *; simpl; lia.
Qed.

Lemma harvest_loop_spec fuel total tiles : forall i a (w : World) a' w' t,
  harvest_loop wfs_request fuel total i tiles a w = Some (a', w', t) ->
  all_features a' = all_features a ++ nonempty_sets (map snd (accepted t)) /\
  total_collected a' =
    total_collected a + sum_len (nonempty_sets (map snd (accepted t))) /\
  Forall (fun v => 0 <= snd v <= MAX_DEPTH) (visited t) /\
  writes t = [] /\
  (count_sleeps t <= length tiles)%nat /\
  (count_requests t <= 85 * length tiles)%nat.
Proof.
  induction tiles as [|b rest IH]; intros i a w a' w' t H.
  - cbn [harvest_loop] in H. unfold ret in H. injection H as <- <- <-.
    simpl. rewrite app_nil_r, Z.add_0_r. repeat split; auto.
  - cbn [harvest_loop] in H.
    apply bind_Some in H as (a1 & w1 & t1 & t2 & H1 & H2 & ->).
    apply harvest_tile_spec in H1 as (F1 & T1 & D1 & W1 & S1 & Q1).
    apply IH in H2 as (F2 & T2 & D2 & W2 & S2 & Q2).
    rewrite accepted_app, visited_app, writes_app, count_sleeps_app,
      count_requests_app, map_app, nonempty_sets_app, sum_len_app, W1, W2.
    rewrite F2, F1, T2, T1, <- app_assoc. cbn [length].
    repeat split; auto; try lia.
    apply Forall_app. split; assumption.
Qed.

Lemma tiles_of_inv fuel area size (w : World) tiles w' t :
  tiles_of fuel area size w = Some (tiles, w', t) ->
  w' = w /\ t = [] /\
  generate_tiles fuel (bminx area) (bminy area) (bmaxx area) (bmaxy area) size
    = Some tiles.
Proof.
  destruct area as [[[minx miny] maxx] maxy]. unfold tiles_of. simpl.
  destruct (generate_tiles fuel minx miny maxx maxy size); [|discriminate].
  unfold ret. intros H. injection H as <- <- <-. auto.
Qed.

(** Lines 92-112, taken apart. *)
Lemma harvest_inv fuel area size (w : World) a w' t :
  harvest wfs_request fuel area size w = Some (a, w', t) ->
  exists tiles t',
    tiles_of fuel area size w = Some (tiles, w, []) /\
    harvest_loop wfs_request fuel (Z.of_nat (length tiles)) 0 tiles
      initial_accumulator w = Some (a, w', t') /\
    t = EvPrint (MsgTotalTiles (Z.of_nat (length tiles))) :: t'.
Proof.
  unfold harvest. intros H.
  apply bind_Some in H as (counted & w1 & t1 & t2 & Hc & H & ->).
  pose proof (tiles_of_inv _ _ _ _ _ _ _ Hc) as (-> & -> & Hg).
  apply bind_Some in H as ([] & w2 & t3 & t4 & He & H & ->).
  unfold emit in He. injection He as <- <-.
  apply bind_Some in H as (tiles & w3 & t5 & t6 & Ht & H & ->).
  pose proof (tiles_of_inv _ _ _ _ _ _ _ Ht) as (-> & -> & Hg').
  assert (tiles = counted) as -> by congruence.
  exists counted, t6. auto.
Qed.

Lemma harvest_spec fuel area size (w : World) a w' t :
  harvest wfs_request fuel area size w = Some (a, w', t) ->
  all_features a = nonempty_sets (map snd (accepted t)) /\
  total_collected a = sum_len (nonempty_sets (map snd (accepted t))) /\
  Forall (fun v => 0 <= snd v <= MAX_DEPTH) (visited t) /\
  writes t = [].
Proof.
  intros H. apply harvest_inv in H as (tiles & t' & _ & H & ->).
  apply harvest_loop_spec in H as (F & T & D & W & _).
  change (EvPrint (MsgTotalTiles (Z.of_nat (length tiles))) :: t')
    with ([EvPrint (MsgTotalTiles (Z.of_nat (length tiles)))] ++ t').
  rewrite accepted_app, visited_app, writes_app.
  cbn [accepted visited flat_map app]. simpl in F, T. auto.
Qed.

(** With fuel for four nested calls every iteration returns. *)
Lemma harvest_tile_total fuel total i b a (w : World) :
  (4 <= fuel)%nat ->
  exists a' w' t, harvest_tile wfs_request fuel total i b a w = Some (a', w', t).
Proof.
  intros Hf.
  destruct (process_tile_total wfs_request fuel b 0 w) as (r & w1 & t1 & Hp);
    [lia|unfold MAX_DEPTH; lia|].
  cbv beta iota delta [harvest_tile bind emit]. rewrite Hp.
  destruct r as [|g r]; [unfold ret; eauto|].
  destruct (collect_total (g :: r) a w1) as (a' & tc & Hc). rewrite Hc.
  unfold ret. eauto.
Qed.

Lemma harvest_loop_total fuel total tiles : forall i a (w : World),
  (4 <= fuel)%nat ->
  exists a' w' t, harvest_loop wfs_request fuel total i tiles a w = Some (a', w', t).
Proof.
  induction tiles as [|b rest IH]; intros i a w Hf.
  - cbn [harvest_loop]. unfold ret. eauto.
  - cbn [harvest_loop]. unfold bind.
    destruct (harvest_tile_total fuel total i b a w Hf) as (a1 & w1 & t1 & ->).
    destruct (IH (i + 1) a1 w1 Hf) as (a' & w' & t & ->). eauto.
Qed.

(** The harvest returns whenever the tiling generator does. *)
Lemma harvest_total fuel area size (w : World) tiles :
  (4 <= fuel)%nat ->
  generate_tiles fuel (bminx area) (bminy area) (bmaxx area) (bmaxy area) size
    = Some tiles ->
  exists a w' t, harvest wfs_request fuel area size w = Some (a, w', t).
Proof.
  intros Hf Hg.
  assert (Ht : tiles_of fuel area size w = Some (tiles, w, [])).
  { destruct area as [[[minx miny] maxx] maxy]. unfold tiles_of.
    cbn [bminx bminy bmaxx bmaxy] in Hg. now rewrite Hg. }
  destruct (harvest_loop_total fuel (Z.of_nat (length tiles)) tiles 0
              initial_accumulator w Hf) as (a & w' & t & Hl).
  unfold harvest. cbv beta iota delta [bind emit]. rewrite Ht. cbv beta iota.
  rewrite Ht. cbv beta iota. rewrite Hl. eauto.
Qed.

End LoopFacts.

(** ** Export *)

Lemma accepted_In (t : list event) (d : Z) (g : GeoDataFrame) :
  In (d, g) (accepted t) ->
  exists b gdf, In (EvVisit b d (Some gdf)) t /\ accepts gdf d = true /\
                g = keep_columns gdf.
Proof.
  unfold accepted. rewrite in_flat_map. intros (e & He & Hin).
  destruct e as [| b' d' [gdf|] | | | |]; try destruct Hin.
  destruct (accepts gdf d') eqn:Ea; [|destruct Hin].
  destruct Hin as [Heq|[]]. injection Heq as <- <-. eauto.
Qed.

Lemma visited_In (t : list event) b d r :
  In (EvVisit b d r) t -> In (b, d) (visited t).
Proof.
  intros H. unfold visited. apply in_flat_map. eexists; split; [exact H|]. now left.
Qed.


Lemma has_column_In (c : string) (gdf : GeoDataFrame) :
  has_column c gdf = true <-> In c (columns gdf).
Proof.
  unfold has_column. rewrite existsb_exists. split.
  - intros (k & Hk & E). apply String.eqb_eq in E. now subst.
  - intros H. exists c. split; [exact H|apply String.eqb_refl].
Qed.

Section ExportFacts.

Context {World : Type}.
Variable wfs_request : bbox -> World -> option GeoDataFrame * World.

(** Lines 115-132 as the events they produce. *)
Lemma export_spec (a : accumulator) (w : World) :
  (all_features a = [] -> export a w = Some (tt, w, [EvPrint MsgNoData])) /\
  (all_features a <> [] ->
   let final_gdf := concat (all_features a) in
   export a w = Some (tt, w,
     [EvPrint (MsgFinal (len final_gdf));
      EvToFile "urbanisme_complet.geojson" "GeoJSON" final_gdf;
      EvToCsv "urbanisme_attributs.csv"
        (if has_column "geometry" final_gdf then drop final_gdf "geometry"
         else final_gdf);
      EvPrint MsgExportDone])).
Proof.
  unfold export. split; intros H.
  - now rewrite H.
  - destruct (all_features a) as [|g l] eqn:E; [congruence|].
    cbv zeta. destruct (has_column "geometry" (concat (g :: l))); reflexivity.
Qed.

Lemma run_inv fuel area size (w : World) a w' t :
  run wfs_request fuel area size w = Some (a, w', t) ->
  exists th te,
    harvest wfs_request fuel area size w = Some (a, w', th) /\
    export a w' = Some (tt, w', te) /\ t = th ++ te.
Proof.
  unfold run. intros H.
  apply bind_Some in H as (a1 & w1 & th & t2 & Hh & H & ->).
  apply bind_Some in H as ([] & w2 & te & t3 & He & H & ->).
  unfold ret in H. injection H as <- <- <-.
  exists th, te. rewrite app_nil_r.
  destruct (all_features a1) eqn:E.
  - rewrite (proj1 (export_spec a1 w1) E) in He. injection He as <- <-.
    rewrite (proj1 (export_spec a1 w1) E). auto.
  - assert (Hne : all_features a1 <> []) by congruence.
    rewrite (proj2 (export_spec a1 w1) Hne) in He. injection He as <- <-.
    rewrite (proj2 (export_spec a1 w1) Hne). auto.
Qed.

Lemma export_total (a : accumulator) (w : World) :
  exists t, export a w = Some (tt, w, t).
Proof.
  destruct (all_features a) eqn:E.
  - eexists. exact (proj1 (export_spec a w) E).
  - eexists. apply (proj2 (export_spec a w)). congruence.
Qed.

(** The whole run returns whenever the tiling generator does. *)
Lemma run_total fuel area size (w : World) tiles :
  (4 <= fuel)%nat ->
  generate_tiles fuel (bminx area) (bminy area) (bmaxx area) (bmaxy area) size
    = Some tiles ->
  exists a w' t, run wfs_request fuel area size w = Some (a, w', t).
Proof.
  intros Hf Hg.
  destruct (harvest_total wfs_request fuel area size w tiles Hf Hg)
    as (a & w' & th & Hh).
  destruct (export_total a w') as (te & He).
  unfold run. cbv beta iota delta [bind]. rewrite Hh. cbv beta iota.
  rewrite He. unfold ret. eauto.
Qed.

End ExportFacts.

Section CheckedExportFacts.

Context {World : Type}.
Variable wfs_request : bbox -> World -> option GeoDataFrame * World.
Variables to_file_raises to_csv_raises : GeoDataFrame -> bool.

(** Lines 115-132 as the events they produce, a write that raises ending
    the script. *)
Lemma export_with_spec (a : accumulator) (w : World) :
  export_with to_file_raises to_csv_raises a w =
  match all_features a with
  | [] => Some (Completed, w, [EvPrint MsgNoData])
  | _ :: _ =>
      let final_gdf := concat (all_features a) in
      let attributes :=
        if has_column "geometry" final_gdf then drop final_gdf "geometry"
        else final_gdf in
      if to_file_raises final_gdf
      then Some (Crashed, w, [EvPrint (MsgFinal (len final_gdf))])
      else if to_csv_raises attributes
      then Some (Crashed, w,
                 [EvPrint (MsgFinal (len final_gdf));
                  EvToFile "urbanisme_complet.geojson" "GeoJSON" final_gdf])
      else Some (Completed, w,
                 [EvPrint (MsgFinal (len final_gdf));
                  EvToFile "urbanisme_complet.geojson" "GeoJSON" final_gdf;
                  EvToCsv "urbanisme_attributs.csv" attributes;
                  EvPrint MsgExportDone])
  end.
Proof.
  unfold export_with. destruct (all_features a) as [|g l]; [reflexivity|].
  cbv zeta. unfold bind at 1. unfold emit at 1.
  destruct (to_file_raises (concat (g :: l))); [reflexivity|].
  unfold bind at 1. unfold emit at 1.
  destruct (to_csv_raises _); reflexivity.
Qed.

Lemma export_with_total (a : accumulator) (w : World) :
  exists o t, export_with to_file_raises to_csv_raises a w = Some (o, w, t).
Proof.
  rewrite export_with_spec. destruct (all_features a); [eauto|].
  cbv zeta. destruct (to_file_raises _); [eauto|].
  destruct (to_csv_raises _); eauto.
Qed.

Lemma run_with_inv fuel area size (w : World) o a w' t :
  run_with wfs_request to_file_raises to_csv_raises fuel area size w
    = Some (o, a, w', t) ->
  exists th te,
    harvest wfs_request fuel area size w = Some (a, w', th) /\
    export_with to_file_raises to_csv_raises a w' = Some (o, w', te) /\
    t = th ++ te.
Proof.
  unfold run_with. intros H.
  apply bind_Some in H as (a1 & w1 & th & t2 & Hh & H & ->).
  apply bind_Some in H as (o1 & w2 & te & t3 & He & H & ->).
  unfold ret in H. injection H as <- <- <- <-.
  exists th, te. rewrite app_nil_r.
  destruct (export_with_total a1 w1) as (o2 & te2 & He2).
  rewrite He2 in He. injection He as <- <- <-. auto.
Qed.

End CheckedExportFacts.

(** With writers that never raise, the run is the one of [run], and it
    completes. *)
Lemma run_with_never_raises {World : Type}
  (wfs_request : bbox -> World -> option GeoDataFrame * World)
  fuel area size (w : World) :
  run_with wfs_request never_raises never_raises fuel area size w =
  match run wfs_request fuel area size w with
  | Some (a, w', t) => Some (Completed, a, w', t)
  | None => None
  end.
Proof.
  unfold run_with, run. cbv beta iota delta [bind].
  destruct (harvest wfs_request fuel area size w) as [[[a w1] th]|]; [|reflexivity].
  rewrite export_with_spec.
  destruct (all_features a) as [|g l] eqn:E.
  - rewrite (proj1 (export_spec a w1) E). reflexivity.
  - assert (Hne : all_features a <> []) by congruence.
    rewrite (proj2 (export_spec a w1) Hne). rewrite E. reflexivity.
Qed.

(** * The specification's claims *)

Section Claims.

Context {World : Type}.
Variable wfs_request : bbox -> World -> option GeoDataFrame * World.

(** C1: the harvest returns whenever the tiling does; the record sets in
    [all_features] at its end are the non-empty ones among those the
    accepting branch of [process_tile] returned, and each accepted record
    set has fewer than [MAX_FEATURES] records or was fetched at depth exactly
    [MAX_DEPTH]; none with [MAX_FEATURES] records or more was accepted at a
    smaller depth. *)
Theorem accepted_below_cap_or_at_max_depth :
  (forall fuel area size (w : World) tiles,
     (4 <= fuel)%nat ->
     generate_tiles fuel (bminx area) (bminy area) (bmaxx area) (bmaxy area) size
       = Some tiles ->
     exists a w' t, harvest wfs_request fuel area size w = Some (a, w', t)) /\
  (forall fuel area size (w : World) a w' t,
     harvest wfs_request fuel area size w = Some (a, w', t) ->
     all_features a = nonempty_sets (map snd (accepted t)) /\
     Forall (fun p => len (snd p) < MAX_FEATURES \/ fst p = MAX_DEPTH) (accepted t) /\
     Forall (fun p => ~ (MAX_FEATURES <= len (snd p) /\ fst p < MAX_DEPTH))
            (accepted t)).
Proof.
  split; [intros; eapply harvest_total; eassumption|].
  intros fuel area size w a w' t H.
  apply harvest_spec in H as (F & _ & D & _).
  assert (Hall : Forall (fun p => len (snd p) < MAX_FEATURES \/ fst p = MAX_DEPTH)
                        (accepted t)).
  { apply Forall_forall. intros [d g] Hin.
    apply accepted_In in Hin as (b & gdf & Hv & Ha & ->).
    apply visited_In in Hv. rewrite Forall_forall in D. specialize (D _ Hv).
    apply accepts_spec in Ha. cbn [fst snd] in *.
    rewrite len_keep_columns. lia. }
  repeat split; [exact F|exact Hall|].
  eapply Forall_impl; [|exact Hall]. cbn beta. lia.
Qed.

(** C2: a call at depth 0 returns, whatever the service answers; it issues
    at most 1 + 4 + 16 + 64 = 85 requests, one per call of [process_tile],
    and no call is deeper than [MAX_DEPTH]. *)
Theorem process_tile_bounded (b : bbox) (w : World) :
  exists r w' t,
    (forall fuel, (4 <= fuel)%nat ->
       process_tile wfs_request fuel b 0 w = Some (r, w', t)) /\
    (count_requests t <= 1 + 4 + 16 + 64)%nat /\
    count_requests t = length (visited t) /\
    Forall (fun v => 0 <= snd v <= MAX_DEPTH) (visited t).
Proof.
  destruct (process_tile_total wfs_request 4 b 0 w) as (r & w' & t & H);
    [lia|unfold MAX_DEPTH; simpl; lia|].
  exists r, w', t. pose proof (process_tile_run _ _ _ _ _ _ _ _ H) as Hr.
  repeat split.
  - intros fuel Hf.
    destruct (process_tile_total wfs_request fuel b 0 w) as (r2 & w2 & t2 & H2);
      [lia|unfold MAX_DEPTH; simpl; lia|].
    pose proof (process_tile_run _ _ _ _ _ _ _ _ H2) as Hr2.
    destruct (tile_run_functional _ _ _ _ _ _ _ Hr _ _ _ Hr2) as (-> & -> & ->).
    exact H2.
  - apply (tile_run_requests _ _ _ _ _ _ _ Hr 3%nat). unfold MAX_DEPTH. simpl. lia.
  - exact (tile_run_requests_visits _ _ _ _ _ _ _ Hr).
  - exact (tile_run_depths _ _ _ _ _ _ _ Hr).
Qed.

(** C4, as the script has it: the harvest loop returns, and each of its
    iterations ends with one pause of 1 exactly when [process_tile] returned
    a non-empty sequence (record sets without records count); when it
    returned the empty sequence the loop goes on to the next tile without
    pausing; and [process_tile] itself never pauses. *)
Theorem pause_after_tiles_with_results :
  (forall fuel total i tiles a (w : World),
     (4 <= fuel)%nat ->
     exists a' w' t,
       harvest_loop wfs_request fuel total i tiles a w = Some (a', w', t)) /\
  (forall fuel total i b rest a (w : World) a' w' t,
     harvest_loop wfs_request fuel total i (b :: rest) a w = Some (a', w', t) ->
     exists r w1 t1 a1 t_rest,
       process_tile wfs_request fuel b 0 w = Some (r, w1, t1) /\
       count_sleeps t1 = 0%nat /\
       harvest_loop wfs_request fuel total (i + 1) rest a1 w1
         = Some (a', w', t_rest) /\
       ((r = [] /\ a1 = a /\
         t = EvPrint (MsgTileStart (i + 1) total b) :: t1 ++ t_rest) \/
        (r <> [] /\ exists tc,
           Forall (fun e => is_print e = true) tc /\
           t = EvPrint (MsgTileStart (i + 1) total b)
                 :: t1 ++ tc ++ [EvSleep 1] ++ t_rest))).
Proof.
  split; [intros; now apply harvest_loop_total|].
  intros fuel total i b rest a w a' w' t H. cbn [harvest_loop] in H.
  apply bind_Some in H as (a1 & w1 & tb & t_rest & Hb & Hrest & ->).
  apply harvest_tile_inv in Hb as (r & t1 & Hr & Hb).
  exists r, w1, t1, a1, t_rest.
  split; [exact Hr|].
  split; [exact (tile_run_no_sleep _ _ _ _ _ _ _ (process_tile_run _ _ _ _ _ _ _ _ Hr))|].
  split; [exact Hrest|].
  destruct Hb as [(-> & -> & ->)|(Hne & tc & Hc & ->)].
  - left. auto.
  - right. split; [exact Hne|]. exists tc. split.
    + now apply collect_spec in Hc.
    + cbn [app]. now rewrite <- !app_assoc.
Qed.

(** C6: when the fetch of a tile fails, [process_tile] returns the empty
    sequence after that single request, without subdividing; in the harvest
    loop the accumulators are left as they were and the remaining tiles are
    processed as usual, the loop returning in every case; and whatever record
    sets with records the trace shows accepted are in [all_features] at the
    end. *)
Theorem fetch_failure_abandons_tile_only (b : bbox) (w w1 : World) :
  wfs_request b w = (None, w1) ->
  (forall fuel d,
     process_tile wfs_request (S fuel) b d w =
     Some ([], w1, [EvRequest b; EvPrint (MsgFetchError b); EvVisit b d None])) /\
  (forall fuel total i rest a,
     harvest_loop wfs_request (S fuel) total i (b :: rest) a w =
     match harvest_loop wfs_request (S fuel) total (i + 1) rest a w1 with
     | Some (a', w', t) =>
         Some (a', w', [EvPrint (MsgTileStart (i + 1) total b); EvRequest b;
                        EvPrint (MsgFetchError b); EvVisit b 0 None] ++ t)
     | None => None
     end) /\
  (forall fuel total i rest a,
     (4 <= fuel)%nat ->
     exists a' w' t,
       harvest_loop wfs_request fuel total (i + 1) rest a w1 = Some (a', w', t) /\
       all_features a' = all_features a ++ nonempty_sets (map snd (accepted t)) /\
       harvest_loop wfs_request fuel total i (b :: rest) a w =
       Some (a', w', [EvPrint (MsgTileStart (i + 1) total b); EvRequest b;
                      EvPrint (MsgFetchError b); EvVisit b 0 None] ++ t)) /\
  (forall fuel total i tiles a a' w' t,
     harvest_loop wfs_request fuel total i tiles a w = Some (a', w', t) ->
     all_features a' = all_features a ++ nonempty_sets (map snd (accepted t))).
Proof.
  intros E.
  assert (Hp : forall fuel d,
     process_tile wfs_request (S fuel) b d w =
     Some ([], w1, [EvRequest b; EvPrint (MsgFetchError b); EvVisit b d None])).
  { intros fuel d. cbn [process_tile]. unfold bind, get_features. rewrite E.
    reflexivity. }
  assert (Hl : forall fuel total i rest a,
     harvest_loop wfs_request (S fuel) total i (b :: rest) a w =
     match harvest_loop wfs_request (S fuel) total (i + 1) rest a w1 with
     | Some (a', w', t) =>
         Some (a', w', [EvPrint (MsgTileStart (i + 1) total b); EvRequest b;
                        EvPrint (MsgFetchError b); EvVisit b 0 None] ++ t)
     | None => None
     end).
  { intros fuel total i rest a. cbn [harvest_loop]. unfold bind at 1.
    unfold harvest_tile. unfold bind at 1. unfold emit at 1.
    unfold bind at 1. rewrite Hp. unfold ret at 1.
    destruct (harvest_loop wfs_request (S fuel) total (i + 1) rest a w1)
      as [[[a' w'] t]|]; reflexivity. }
  split; [exact Hp|]. split; [exact Hl|]. split.
  - intros fuel total i rest a Hf.
    destruct (harvest_loop_total wfs_request fuel total rest (i + 1) a w1 Hf)
      as (a' & w' & t & Hrest).
    exists a', w', t. split; [exact Hrest|]. split.
    + now apply harvest_loop_spec in Hrest.
    + destruct fuel as [|fuel]; [lia|]. now rewrite Hl, Hrest.
  - intros fuel total i tiles a a' w' t H.
    now apply harvest_loop_spec in H.
Qed.

(** C7, with writers that may raise: the run returns whenever the tiling
    does; when it accepted no record at all nothing is written and the
    no-data message is printed; when it accepted at least one record the
    geometry file is written first and the attribute file second, the run
    stopping at the first of the two writes that raises, so that a raising
    [to_file] leaves no file and a raising [to_csv] only the geometry file. *)
Theorem run_writes_iff_records (to_file_raises to_csv_raises : GeoDataFrame -> bool) :
  (forall fuel area size (w : World) tiles,
     (4 <= fuel)%nat ->
     generate_tiles fuel (bminx area) (bminy area) (bmaxx area) (bmaxy area) size
       = Some tiles ->
     exists o a w' t,
       run_with wfs_request to_file_raises to_csv_raises fuel area size w
         = Some (o, a, w', t)) /\
  (forall fuel area size (w : World) o a w' t,
     run_with wfs_request to_file_raises to_csv_raises fuel area size w
       = Some (o, a, w', t) ->
     let records := sum_len (map snd (accepted t)) in
     let final_gdf := concat (all_features a) in
     let attributes :=
       if has_column "geometry" final_gdf then drop final_gdf "geometry"
       else final_gdf in
     (records = 0 ->
      o = Completed /\ writes t = [] /\ In (EvPrint MsgNoData) t) /\
     (0 < records ->
      len final_gdf = records /\
      (to_file_raises final_gdf = true -> o = Crashed /\ writes t = []) /\
      (to_file_raises final_gdf = false -> to_csv_raises attributes = true ->
       o = Crashed /\
       writes t = [EvToFile "urbanisme_complet.geojson" "GeoJSON" final_gdf]) /\
      (to_file_raises final_gdf = false -> to_csv_raises attributes = false ->
       o = Completed /\
       writes t = [EvToFile "urbanisme_complet.geojson" "GeoJSON" final_gdf;
                   EvToCsv "urbanisme_attributs.csv" attributes]))).
Proof.
  split.
  - intros fuel area size w tiles Hf Hg.
    destruct (harvest_total wfs_request fuel area size w tiles Hf Hg)
      as (a & w' & th & Hh).
    destruct (export_with_total to_file_raises to_csv_raises a w') as (o & te & He).
    unfold run_with. cbv beta iota delta [bind]. rewrite Hh. cbv beta iota.
    rewrite He. unfold ret. eauto.
  - intros fuel area size w o a w' t H records final_gdf attributes.
    subst attributes final_gdf.
    apply run_with_inv in H as (th & te & Hh & He & ->).
    apply harvest_spec in Hh as (F & T & _ & W).
    rewrite export_with_spec in He.
    assert (Hlen : len (concat (all_features a)) = sum_len (map snd (accepted th))).
    { now rewrite len_concat, F, sum_len_nonempty_sets. }
    assert (Hrec : records = sum_len (map snd (accepted th))).
    { unfold records. rewrite accepted_app.
      replace (accepted te) with (@nil (Z * GeoDataFrame));
        [now rewrite app_nil_r|].
      destruct (all_features a); [now injection He as <- <-|].
      cbv zeta in He.
      destruct (to_file_raises _); [now injection He as <- <-|].
      destruct (to_csv_raises _); now injection He as <- <-. }
    rewrite writes_app, W. cbn [app]. split; intros Hr.
    + rewrite Hrec in Hr. apply sum_len_zero in Hr. rewrite <- F in Hr.
      rewrite Hr in He. injection He as <- <-.
      repeat split. apply in_or_app. right. now left.
    + split; [now rewrite Hrec|].
      destruct (all_features a) as [|g l] eqn:E.
      { symmetry in F. apply sum_len_zero in F. lia. }
      cbv zeta in He.
      split; [|split].
      * intros Hf. rewrite Hf in He. now injection He as <- <-.
      * intros Hf Hc. rewrite Hf, Hc in He. now injection He as <- <-.
      * intros Hf Hc. rewrite Hf, Hc in He. now injection He as <- <-.
Qed.

(** C3, in exact arithmetic: a subdivision bisects both axes into four
    quadrants of a quarter of the area each; after [d] subdivisions the [4^d]
    leaves cover exactly the points of the region and have pairwise disjoint
    interiors; and what a call of [process_tile] fetches [k] levels below
    itself is one of the [4^k] leaves of its region. *)
Theorem subdivision_tiles_the_region (b : bbox) (d : nat) :
  (let mx := ((bminx b + bmaxx b) / 2)%Q in
   let my := ((bminy b + bmaxy b) / 2)%Q in
   Forall2 bbox_eq (children b)
     [(bminx b, bminy b, mx, my); (bminx b, my, mx, bmaxy b);
      (mx, bminy b, bmaxx b, my); (mx, my, bmaxx b, bmaxy b)]) /\
  Forall (fun c => (area c == area b / 4)%Q) (children b) /\
  length (leaves d b) = (4 ^ d)%nat /\
  (forall px py, inside px py b <-> Exists (inside px py) (leaves d b)) /\
  ForallOrdPairs disjoint_interiors (leaves d b) /\
  (forall fuel dep (w : World) r w' t b' d',
     process_tile wfs_request fuel b dep w = Some (r, w', t) ->
     In (b', d') (visited t) ->
     dep <= d' /\ In b' (leaves (Z.to_nat (d' - dep)) b)).
Proof.
  split; [apply children_quadrants|].
  split; [apply children_area|].
  split; [apply leaves_length|].
  split; [apply leaves_cover|].
  split; [apply leaves_disjoint|].
  intros fuel dep w r w' t b' d' H Hin. apply process_tile_run in H.
  exact (tile_run_leaves _ _ _ _ _ _ _ H _ _ Hin).
Qed.

End Claims.



Lemma accumulator_ok_extend (a a' : accumulator) (l : list GeoDataFrame) :
  accumulator_ok a ->
  all_features a' = all_features a ++ nonempty_sets l ->
  total_collected a' = total_collected a + sum_len (nonempty_sets l) ->
  accumulator_ok a'.
Proof.
  intros [Ht Hp] Hf Hs. split.
  - rewrite Hs, Hf, sum_len_app, Ht. reflexivity.
  - rewrite Hf. apply Forall_app. split; [exact Hp|apply nonempty_sets_positive].
Qed.

Section MoreClaims.

Context {World : Type}.
Variable wfs_request : bbox -> World -> option GeoDataFrame * World.


(** C10: [total_collected] is the sum of the sizes of the record sets in
    [all_features], all of which have records, before the loop, after every
    step of the inner loop and after every iteration of the outer loop;
    record sets without records are left out; the merged frame has
    [total_collected] records; and the run returns with these facts and, when
    it exports, prints [total_collected] as the size of the merged frame. *)
Theorem accumulators_stay_consistent :
  accumulator_ok initial_accumulator /\
  (forall l a (w : World) a' w' t,
     accumulator_ok a -> collect l a w = Some (a', w', t) ->
     accumulator_ok a' /\ all_features a' = all_features a ++ nonempty_sets l) /\
  (forall fuel total i tiles a (w : World) a' w' t,
     accumulator_ok a ->
     harvest_loop wfs_request fuel total i tiles a w = Some (a', w', t) ->
     accumulator_ok a' /\
     all_features a' = all_features a ++ nonempty_sets (map snd (accepted t))) /\
  (forall a, accumulator_ok a ->
     len (concat (all_features a)) = total_collected a) /\
  (forall fuel area size (w : World) tiles,
     (4 <= fuel)%nat ->
     generate_tiles fuel (bminx area) (bminy area) (bmaxx area) (bmaxy area) size
       = Some tiles ->
     exists a w' t,
       run wfs_request fuel area size w = Some (a, w', t) /\
       accumulator_ok a /\
       (all_features a <> [] ->
        In (EvPrint (MsgFinal (total_collected a))) t)).
Proof.
  assert (H0 : accumulator_ok initial_accumulator) by (split; [reflexivity|constructor]).
  assert (Hlen : forall a, accumulator_ok a ->
                           len (concat (all_features a)) = total_collected a).
  { intros a [Ht _]. now rewrite len_concat. }
  assert (Hloop : forall fuel total i tiles a (w : World) a' w' t,
     accumulator_ok a ->
     harvest_loop wfs_request fuel total i tiles a w = Some (a', w', t) ->
     accumulator_ok a' /\
     all_features a' = all_features a ++ nonempty_sets (map snd (accepted t))).
  { intros fuel total i tiles a w a' w' t Hok H.
    apply harvest_loop_spec in H as (F & T & _). split; [|exact F].
    exact (accumulator_ok_extend _ _ _ Hok F T). }
  split; [exact H0|]. split; [|split; [exact Hloop|split; [exact Hlen|]]].
  - intros l a w a' w' t Hok H.
    apply collect_spec in H as (_ & F & T & _). split; [|exact F].
    exact (accumulator_ok_extend _ _ _ Hok F T).
  - intros fuel area size w tiles Hf Hg.
    destruct (run_total wfs_request fuel area size w tiles Hf Hg)
      as (a & w' & t & H).
    exists a, w', t. split; [exact H|].
    apply run_inv in H as (th & te & Hh & He & ->).
    apply harvest_inv in Hh as (tiles0 & t' & _ & Hl & _).
    destruct (Hloop _ _ _ _ _ _ _ _ _ H0 Hl) as [Hok _].
    split; [exact Hok|]. intros Hne.
    rewrite (proj2 (export_spec a w') Hne) in He. injection He as <-.
    rewrite (Hlen _ Hok). apply in_or_app. right. now left.
Qed.

End MoreClaims.

(** * Runs against the sample services *)

Import Samples.

Lemma accepted_below_cap_or_at_max_depth_witness :
  exists a w' t,
    harvest always_capped 4 unit_square 1 tt = Some (a, w', t) /\
    all_features a = nonempty_sets (map snd (accepted t)) /\
    Forall (fun p => len (snd p) < MAX_FEATURES \/ fst p = MAX_DEPTH) (accepted t) /\
    Forall (fun p => ~ (MAX_FEATURES <= len (snd p) /\ fst p < MAX_DEPTH)) (accepted t).
Proof.
  destruct (proj1 (accepted_below_cap_or_at_max_depth always_capped)
              4%nat unit_square 1%Q tt [unit_square]) as (a & w' & t & H);
    [lia|reflexivity|].
  exists a, w', t. split; [exact H|].
  exact (proj2 (accepted_below_cap_or_at_max_depth always_capped) _ _ _ _ _ _ _ H).
Defined.

Lemma process_tile_bounded_witness :
  exists r w' t,
    process_tile always_capped 4 unit_square 0 tt = Some (r, w', t) /\
    (count_requests t <= 1 + 4 + 16 + 64)%nat /\
    count_requests t = length (visited t) /\
    Forall (fun v => 0 <= snd v <= MAX_DEPTH) (visited t).
Proof.
  destruct (process_tile_bounded always_capped unit_square tt)
    as (r & w' & t & H & rest).
  exists r, w', t. split; [apply H; lia|exact rest].
Defined.

(** C4 as the specification words it fails on a service that is down: one
    initial tile, no pause. *)
Lemma no_pause_after_failed_tile :
  ~ pause_after_every_tile always_fails 4 unit_square 1 tt.
Proof.
  intros H.
  specialize (H initial_accumulator tt
                [EvPrint (MsgTotalTiles 1); EvPrint (MsgTileStart 1 1 unit_square);
                 EvRequest unit_square; EvPrint (MsgFetchError unit_square);
                 EvVisit unit_square 0 None]
                [unit_square] eq_refl eq_refl).
  discriminate H.
Qed.

Lemma pause_after_tiles_with_results_witness :
  exists a' w' t r w1 t1 a1 t_rest,
    harvest_loop always_empty 4 1 0 [unit_square] initial_accumulator tt
      = Some (a', w', t) /\
    process_tile always_empty 4 unit_square 0 tt = Some (r, w1, t1) /\
    count_sleeps t1 = 0%nat /\
    harvest_loop always_empty 4 1 (0 + 1) [] a1 w1 = Some (a', w', t_rest) /\
    ((r = [] /\ a1 = initial_accumulator /\
      t = EvPrint (MsgTileStart (0 + 1) 1 unit_square) :: t1 ++ t_rest) \/
     (r <> [] /\ exists tc,
        Forall (fun e => is_print e = true) tc /\
        t = EvPrint (MsgTileStart (0 + 1) 1 unit_square)
              :: t1 ++ tc ++ [EvSleep 1] ++ t_rest)).
Proof.
  destruct (proj1 (pause_after_tiles_with_results always_empty)
              4%nat 1 0 [unit_square] initial_accumulator tt) as (a' & w' & t & H);
    [lia|].
  destruct (proj2 (pause_after_tiles_with_results always_empty) _ _ _ _ _ _ _ _ _ _ H)
    as (r & w1 & t1 & a1 & t_rest & P).
  exists a', w', t, r, w1, t1, a1, t_rest. split; [exact H|exact P].
Defined.

Lemma fetch_failure_abandons_tile_only_witness :
  (forall d,
     process_tile (fails_on failing_tile) 1 failing_tile d tt =
     Some ([], tt, [EvRequest failing_tile; EvPrint (MsgFetchError failing_tile);
                    EvVisit failing_tile d None])) /\
  exists a' w' t,
    harvest_loop (fails_on failing_tile) 4 2 (0 + 1) [(0, 46, 1, 47)%Q]
      initial_accumulator tt = Some (a', w', t) /\
    all_features a' =
      all_features initial_accumulator ++ nonempty_sets (map snd (accepted t)) /\
    harvest_loop (fails_on failing_tile) 4 2 0 [failing_tile; (0, 46, 1, 47)%Q]
      initial_accumulator tt =
    Some (a', w', [EvPrint (MsgTileStart (0 + 1) 2 failing_tile);
                   EvRequest failing_tile;
                   EvPrint (MsgFetchError failing_tile);
                   EvVisit failing_tile 0 None] ++ t).
Proof.
  destruct (fetch_failure_abandons_tile_only (fails_on failing_tile)
              failing_tile tt tt eq_refl) as (Hp & _ & Ht & _).
  split; [intros d; apply Hp|].
  apply (Ht 4%nat 2 0 [(0, 46, 1, 47)%Q] initial_accumulator). lia.
Defined.

Lemma run_writes_iff_records_witness :
  exists o a t,
    run_with always_typezone raises_without_columns never_raises 4 unit_square 1 tt
      = Some (o, a, tt, t) /\
    0 < sum_len (map snd (accepted t)) /\
    raises_without_columns (concat (all_features a)) = true /\
    o = Crashed /\ writes t = [].
Proof.
  eexists _, _, _. split; [vm_compute; reflexivity|].
  split; [reflexivity|]. split; [reflexivity|].
  refine (proj1 (proj2 (proj2 (proj2
            (run_writes_iff_records always_typezone raises_without_columns
               never_raises) 4%nat unit_square 1%Q tt _ _ tt _ _) _)) _);
    reflexivity.
Defined.

(** C7 as the specification words it fails when the only column of the
    fetched frame is typezone: the record is counted, the merged frame has no
    column left, [to_file] raises on it and neither file is written. *)
Lemma no_file_when_to_file_raises :
  ~ writes_both_files_when_records always_typezone raises_without_columns
      never_raises 4 unit_square 1 tt.
Proof.
  unfold writes_both_files_when_records. intros H.
  edestruct H as (g & df & Hw); [vm_compute; reflexivity|reflexivity|].
  vm_compute in Hw. discriminate Hw.
Qed.

Lemma subdivision_tiles_the_region_witness :
  exists r w' t,
    process_tile (capped_at unit_square) 2 unit_square 0 tt = Some (r, w', t) /\
    In (sub_bbox unit_square 1 1, 1) (visited t) /\
    0 <= 1 /\
    In (sub_bbox unit_square 1 1) (leaves (Z.to_nat (1 - 0)) unit_square).
Proof.
  eexists _, _, _. split; [vm_compute; reflexivity|].
  split; [vm_compute; auto 10|].
  eapply (proj2 (proj2 (proj2 (proj2 (proj2
            (subdivision_tiles_the_region (capped_at unit_square)
               unit_square 0%nat))))) 2%nat 0 tt).
  - vm_compute. reflexivity.
  - vm_compute. auto 10.
Defined.

(** C3 as the specification words it fails in binary64, the arithmetic of
    the script: the quarters of (0.1, 0.2, 0.7, 0.9) end at
    0.2 + 2 * 0.35 = 0.8999999999999999, so that the point (0.6, 0.9) of the
    region is in none of them. *)
Lemma binary64_quarters_leave_a_gap :
  ~ Binary64.quarters_cover (Binary64.of_bbox (1 # 10, 2 # 10, 7 # 10, 9 # 10)%Q).
Proof.
  intros H.
  specialize (H (Binary64.of_Q (6 # 10)) (Binary64.of_Q (9 # 10))
                ltac:(vm_compute; reflexivity)).
  vm_compute in H. discriminate H.
Qed.



Lemma accumulators_stay_consistent_witness :
  exists a w' t,
    run always_small 4 unit_square 1 tt = Some (a, w', t) /\
    accumulator_ok a /\
    (all_features a <> [] -> In (EvPrint (MsgFinal (total_collected a))) t).
Proof.
  apply (proj2 (proj2 (proj2 (proj2 (accumulators_stay_consistent always_small))))
           4%nat unit_square 1%Q tt [unit_square]); [lia|reflexivity].
Defined.

(** ** Worked scenarios *)

(** The pathological service reaches the bound of C2: 85 requests, and the
    64 record sets fetched at depth 3 are accepted although capped. *)
Example pathological_service_reaches_the_bound :
  option_map (fun '(r, _, t) =>
                (length r, count_requests t,
                 forallb (fun p => (fst p =? MAX_DEPTH) && (len (snd p) =? MAX_FEATURES))
                         (accepted t)))
             (process_tile always_capped 4 unit_square 0 tt)
  = Some (64%nat, 85%nat, true).
Proof. vm_compute. reflexivity. Qed.

(** The tiles it fetches at depth 3 are the leaves of the three-fold
    subdivision, in order. *)
Example pathological_service_fetches_the_leaves :
  option_map (fun '(_, _, t) =>
                map fst (filter (fun v => snd v =? MAX_DEPTH) (visited t)))
             (process_tile always_capped 4 unit_square 0 tt)
  = Some (leaves 3 unit_square).
Proof. vm_compute. reflexivity. Qed.

(** A capped tile is replaced by its four quarters: the capped answer itself
    is never collected. *)
Example capped_tile_is_replaced_by_its_quarters :
  option_map (fun '(a, _, t) =>
                (all_features a, total_collected a, count_requests t,
                 map snd (visited t)))
             (harvest capped_once 4 unit_square 1 0%nat)
  = Some (repeat (keep_columns small_frame) 4, 8, 5%nat, [0; 1; 1; 1; 1]).
Proof. vm_compute. reflexivity. Qed.

(** Failure isolation: the tile (0,45,1,46) fails, the next one is still
    processed and collected. *)
Example failure_does_not_stop_the_harvest :
  option_map (fun '(a, _, t) =>
                (all_features a, total_collected a, map fst (visited t), count_sleeps t))
             (harvest (fails_on failing_tile) 4 (0, 45, 1, 47)%Q 1 tt)
  = Some ([keep_columns small_frame], 2,
          [failing_tile; (0, 46, 1, 47)%Q], 1%nat).
Proof. vm_compute. reflexivity. Qed.

(** A tile answered by a frame without records still ends with the pause. *)
Example pause_after_tile_without_records :
  option_map (fun '(a, _, t) => (all_features a, count_sleeps t))
             (harvest always_empty 4 unit_square 1 tt)
  = Some ([], 1%nat).
Proof. vm_compute. reflexivity. Qed.

(** The script's own grid: 15 x 11 initial tiles over France; against a
    service that never caps, one request and one pause per tile. *)
Example france_has_165_initial_tiles :
  option_map (@length bbox) (generate_tiles 15 (-5) 41 10 52 1) = Some 165%nat.
Proof. vm_compute. reflexivity. Qed.

Example main_on_an_uncapped_service :
  option_map (fun '(a, _, t) =>
                (length (all_features a), total_collected a,
                 count_requests t, count_sleeps t, length (writes t)))
             (main always_small 15 tt)
  = Some (165%nat, 330, 165%nat, 165%nat, 2%nat).
Proof. vm_compute. reflexivity. Qed.

(** ** Binary64 on the script's configuration *)

(** Over France with step 1 the generator yields the same 165 tiles in
    floating point as in exact arithmetic. *)
Example binary64_initial_tiles_agree :
  Binary64.generate_tiles 15 (Binary64.of_Q (-5)) (Binary64.of_Q 41)
    (Binary64.of_Q 10) (Binary64.of_Q 52) (Binary64.of_Q 1)
  = option_map (map Binary64.of_bbox) (generate_tiles 15 (-5) 41 10 52 1).
Proof. vm_compute. reflexivity. Qed.

(** So do all the sub-tiles that up to three subdivisions of these tiles
    can reach. *)
Example binary64_sub_tiles_agree :
  option_map (fun tiles =>
     map (fun d => flat_map (fun b => Binary64.leaves d (Binary64.of_bbox b)) tiles)
         [0; 1; 2; 3]%nat)
    (generate_tiles 15 (-5) 41 10 52 1)
  = option_map (fun tiles =>
     map (fun d => map Binary64.of_bbox (flat_map (leaves d) tiles)) [0; 1; 2; 3]%nat)
    (generate_tiles 15 (-5) 41 10 52 1).
Proof. vm_compute. reflexivity. Qed.

(** * Further properties of the script *)

(** ** The initial grid *)

Local Open Scope Q_scope.

Section GridFacts.

Variables maxx maxy size : Q.

Lemma column_tiles_cover (f : nat) : forall x y l py,
  column_tiles f x y maxx maxy size = Some l -> 0 < size ->
  y < maxy -> y <= py -> py <= maxy ->
  exists t, In t l /\ bminy t <= py /\ py <= bmaxy t.
Proof.
  induction f as [|f IH]; intros x y l py H Hs Hy Hlo Hhi; simpl in H;
    (destruct (ltb y maxy) eqn:E; [|apply ltb_ge in E; lra]); [discriminate|].
  destruct (column_tiles f x (y + size) maxx maxy size) as [rest|] eqn:Er; [|discriminate].
  injection H as <-.
  destruct (Qlt_le_dec (py_min (y + size) maxy) py) as [Hgt|Hle].
  - assert (Hnext : y + size < py /\ y + size < maxy).
    { unfold py_min in Hgt. destruct (ltb maxy (y + size)) eqn:Em; [lra|].
      apply ltb_ge in Em. lra. }
    destruct (IH x (y + size) rest py Er Hs) as (t & Hin & Ht); try lra.
    exists t. split; [now right|exact Ht].
  - eexists. split; [now left|]. simpl. lra.
Qed.

Lemma grid_tiles_cover (b f : nat) : forall x miny l px py,
  grid_tiles b f x miny maxx maxy size = Some l -> 0 < size ->
  x < maxx -> x <= px -> px <= maxx ->
  miny < maxy -> miny <= py -> py <= maxy ->
  exists t, In t l /\ inside px py t.
Proof.
  induction f as [|f IH]; intros x miny l px py H Hs Hx Hlo Hhi Hy Hylo Hyhi;
    simpl in H;
    (destruct (ltb x maxx) eqn:E; [|apply ltb_ge in E; lra]); [discriminate|].
  destruct (column_tiles b x miny maxx maxy size) as [col|] eqn:Ec; [|discriminate].
  destruct (grid_tiles b f (x + size) miny maxx maxy size) as [rest|] eqn:Er;
    [|discriminate].
  injection H as <-.
  destruct (Qlt_le_dec (py_min (x + size) maxx) px) as [Hgt|Hle].
  - assert (Hnext : x + size < px /\ x + size < maxx).
    { unfold py_min in Hgt. destruct (ltb maxx (x + size)) eqn:Em; [lra|].
      apply ltb_ge in Em. lra. }
    destruct (IH (x + size) miny rest px py Er Hs) as (t & Hin & Ht); try lra.
    exists t. split; [apply in_or_app; now right|exact Ht].
  - destruct (column_tiles_cover _ _ _ _ py Ec Hs Hy Hylo Hyhi) as (t & Hin & Ht).
    destruct (column_tiles_shape _ _ _ _ _ _ _ _ Ec Hs Hin) as (H1 & H2 & _).
    exists t. split; [apply in_or_app; now left|].
    unfold inside. rewrite H1, H2. lra.
Qed.

Lemma column_tiles_disjoint (f : nat) : forall x y l,
  column_tiles f x y maxx maxy size = Some l -> 0 < size ->
  ForallOrdPairs disjoint_interiors l.
Proof.
  induction f as [|f IH]; intros x y l H Hs; simpl in H;
    destruct (ltb y maxy) eqn:E; try discriminate;
    try (injection H as <-; constructor).
  destruct (column_tiles f x (y + size) maxx maxy size) as [rest|] eqn:Er; [|discriminate].
  injection H as <-. constructor; [|exact (IH _ _ _ Er Hs)].
  apply Forall_forall. intros t Hin px py [[_ [_ Hu]] [_ [Hl _]]].
  destruct (column_tiles_shape _ _ _ _ _ _ _ _ Er Hs Hin) as (_ & _ & H3 & _).
  simpl in Hu. pose proof (py_min_le_l (y + size) maxy). lra.
Qed.

Lemma grid_tiles_disjoint (b f : nat) : forall x miny l,
  grid_tiles b f x miny maxx maxy size = Some l -> 0 < size ->
  ForallOrdPairs disjoint_interiors l.
Proof.
  induction f as [|f IH]; intros x miny l H Hs; simpl in H;
    destruct (ltb x maxx) eqn:E; try discriminate;
    try (injection H as <-; constructor).
  destruct (column_tiles b x miny maxx maxy size) as [col|] eqn:Ec; [|discriminate].
  destruct (grid_tiles b f (x + size) miny maxx maxy size) as [rest|] eqn:Er;
    [|discriminate].
  injection H as <-. apply FOP_app.
  - exact (column_tiles_disjoint _ _ _ _ Ec Hs).
  - exact (IH _ _ _ Er Hs).
  - intros t t' Hin Hin' px py [[[_ Hu] _] [[Hl _] _]].
    destruct (column_tiles_shape _ _ _ _ _ _ _ _ Ec Hs Hin) as (_ & H2 & _).
    destruct (grid_tiles_shape _ _ _ _ _ _ _ _ _ Er Hs Hin') as ((H3 & _) & _).
    rewrite H2 in Hu. pose proof (py_min_le_l (x + size) maxx). lra.
Qed.

Lemma column_tiles_first (f : nat) (x y : Q) l :
  column_tiles f x y maxx maxy size = Some l -> y < maxy -> l <> [].
Proof.
  intros H Hy. apply ltb_lt in Hy. destruct f; simpl in H; rewrite Hy in H;
    [discriminate|].
  destruct (column_tiles f x (y + size) maxx maxy size); [|discriminate].
  injection H as <-. discriminate.
Qed.

Lemma grid_tiles_flat (b f : nat) : forall x miny l,
  grid_tiles b f x miny maxx maxy size = Some l -> maxy <= miny -> l = [].
Proof.
  induction f as [|f IH]; intros x miny l H Hy; simpl in H;
    destruct (ltb x maxx) eqn:E; try discriminate;
    try (injection H as <-; reflexivity).
  assert (Hc : column_tiles b x miny maxx maxy size = Some []).
  { apply ltb_ge in Hy. destruct b; simpl; now rewrite Hy. }
  rewrite Hc in H.
  destruct (grid_tiles b f (x + size) miny maxx maxy size) as [rest|] eqn:Er;
    [|discriminate].
  injection H as <-. exact (IH _ _ _ Er Hy).
Qed.

Lemma column_tiles_aligned (f : nat) : forall x y l t,
  column_tiles f x y maxx maxy size = Some l -> In t l ->
  bminx t = x /\ exists j : nat, bminy t == y + inject_Z (Z.of_nat j) * size.
Proof.
  induction f as [|f IH]; intros x y l t H Hin; simpl in H;
    destruct (ltb y maxy) eqn:E; try discriminate;
    try (injection H as <-; destruct Hin).
  destruct (column_tiles f x (y + size) maxx maxy size) as [rest|] eqn:Er; [|discriminate].
  injection H as <-. destruct Hin as [<-|Hin].
  - split; [reflexivity|]. exists 0%nat. simpl. ring.
  - destruct (IH _ _ _ _ Er Hin) as (H1 & j & Hj). split; [exact H1|].
    exists (S j). rewrite Hj, Nat2Z.inj_succ. unfold Z.succ.
    rewrite inject_Z_plus. change (inject_Z 1) with 1. ring.
Qed.

Lemma grid_tiles_aligned (b f : nat) : forall x miny l t,
  grid_tiles b f x miny maxx maxy size = Some l -> In t l ->
  exists i j : nat,
    bminx t == x + inject_Z (Z.of_nat i) * size /\
    bminy t == miny + inject_Z (Z.of_nat j) * size.
Proof.
  induction f as [|f IH]; intros x miny l t H Hin; simpl in H;
    destruct (ltb x maxx) eqn:E; try discriminate;
    try (injection H as <-; destruct Hin).
  destruct (column_tiles b x miny maxx maxy size) as [col|] eqn:Ec; [|discriminate].
  destruct (grid_tiles b f (x + size) miny maxx maxy size) as [rest|] eqn:Er;
    [|discriminate].
  injection H as <-. apply in_app_or in Hin as [Hin|Hin].
  - destruct (column_tiles_aligned _ _ _ _ _ Ec Hin) as (H1 & j & Hj).
    exists 0%nat, j. split; [rewrite H1; simpl; ring|exact Hj].
  - destruct (IH _ _ _ _ Er Hin) as (i & j & Hi & Hj).
    exists (S i), j. split; [|exact Hj].
    rewrite Hi, Nat2Z.inj_succ. unfold Z.succ.
    rewrite inject_Z_plus. change (inject_Z 1) with 1. ring.
Qed.

End GridFacts.

Lemma generate_tiles_positive_step (f : nat) (minx miny maxx maxy size : Q) l :
  generate_tiles f minx miny maxx maxy size = Some l -> minx < maxx -> 0 < size.
Proof.
  intros H Hx. destruct (Qlt_le_dec 0 size) as [Hs|Hs]; [exact Hs|].
  unfold generate_tiles in H. rewrite grid_tiles_diverges in H by assumption.
  discriminate.
Qed.

(** X1: the initial grid leaves no gap: every point of a proper area of
    interest lies in one of the yielded tiles. *)
Theorem generate_tiles_covers_area (f : nat) (minx miny maxx maxy size : Q) l px py :
  generate_tiles f minx miny maxx maxy size = Some l ->
  minx < maxx -> miny < maxy ->
  inside px py (minx, miny, maxx, maxy) ->
  Exists (inside px py) l.
Proof.
  intros H Hx Hy [[X1 X2] [Y1 Y2]]. cbn [bminx bminy bmaxx bmaxy] in *.
  pose proof (generate_tiles_positive_step _ _ _ _ _ _ _ H Hx) as Hs.
  destruct (grid_tiles_cover _ _ _ _ _ _ _ _ px py H Hs Hx X1 X2 Hy Y1 Y2)
    as (t & Hin & Ht).
  apply Exists_exists. eauto.
Qed.

Lemma generate_tiles_covers_area_witness :
  Exists (inside (3 # 2) (1 # 2))
         [(0, 0, 1, 1); (0, 1, 1, 2); (1, 0, 2, 1); (1, 1, 2, 2)].
Proof.
  apply (generate_tiles_covers_area 2 0 0 2 2 1).
  - reflexivity.
  - reflexivity.
  - reflexivity.
  - unfold inside, Qle. simpl. lia.
Defined.

(** X2: the yielded tiles never overlap: any two of them have disjoint
    interiors. *)
Theorem generate_tiles_no_overlap (f : nat) (minx miny maxx maxy size : Q) l :
  generate_tiles f minx miny maxx maxy size = Some l ->
  ForallOrdPairs disjoint_interiors l.
Proof.
  intros H. destruct (Qlt_le_dec minx maxx) as [Hx|Hx].
  - pose proof (generate_tiles_positive_step _ _ _ _ _ _ _ H Hx) as Hs.
    exact (grid_tiles_disjoint _ _ _ _ _ _ _ _ H Hs).
  - unfold generate_tiles in H. rewrite grid_tiles_nothing in H by assumption.
    injection H as <-. constructor.
Qed.

Lemma generate_tiles_no_overlap_witness :
  ForallOrdPairs disjoint_interiors
    [(0, 0, 1, 1); (0, 1, 1, 2); (1, 0, 2, 1); (1, 1, 2, 2)].
Proof. apply (generate_tiles_no_overlap 2 0 0 2 2 1). reflexivity. Defined.

(** X3: a run of the generator that ends yields no tile exactly when the
    area is degenerate ([maxx <= minx] or [maxy <= miny]); with
    [maxx <= minx] it ends at once, whatever the step. *)
Theorem generate_tiles_empty_iff_degenerate :
  (forall f minx miny maxx maxy size l,
     generate_tiles f minx miny maxx maxy size = Some l ->
     (l = [] <-> maxx <= minx \/ maxy <= miny)) /\
  (forall f minx miny maxx maxy size,
     maxx <= minx -> generate_tiles f minx miny maxx maxy size = Some []).
Proof.
  split.
  - intros f minx miny maxx maxy size l H. split.
    + intros ->. destruct (Qlt_le_dec minx maxx) as [Hx|Hx]; [|now left].
      destruct (Qlt_le_dec miny maxy) as [Hy|Hy]; [exfalso|now right].
      unfold generate_tiles in H. apply ltb_lt in Hx.
      destruct f; cbn [grid_tiles] in H; rewrite Hx in H; [discriminate|].
      destruct (column_tiles (S f) minx miny maxx maxy size) as [col|] eqn:Ec;
        [|discriminate].
      destruct (grid_tiles (S f) f (minx + size) miny maxx maxy size); [|discriminate].
      injection H as H. apply app_eq_nil in H as [-> _].
      exact (column_tiles_first _ _ _ _ _ _ _ Ec Hy eq_refl).
    + intros [Hx|Hy].
      * unfold generate_tiles in H. rewrite grid_tiles_nothing in H by assumption.
        now injection H as <-.
      * exact (grid_tiles_flat _ _ _ _ _ _ _ _ H Hy).
  - intros f minx miny maxx maxy size Hx. now apply grid_tiles_nothing.
Qed.

Lemma generate_tiles_empty_iff_degenerate_witness :
  (@nil bbox = [] <-> 2 <= 0 \/ 1 <= 1) /\
  generate_tiles 0 3 0 3 1 0 = Some [].
Proof.
  split.
  - apply (proj1 generate_tiles_empty_iff_degenerate 2%nat 0 1 2 1 1 []).
    reflexivity.
  - apply (proj2 generate_tiles_empty_iff_degenerate 0%nat 3 0 3 1 0).
    unfold Qle. simpl. lia.
Defined.

(** X4, in exact arithmetic: the tiles are aligned on the grid anchored at
    the lower-left corner of the area: the lower-left corner of each tile is
    [(minx + i * size, miny + j * size)] for some naturals [i] and [j]. *)
Theorem generate_tiles_grid_aligned (f : nat) (minx miny maxx maxy size : Q) l t :
  generate_tiles f minx miny maxx maxy size = Some l -> In t l ->
  exists i j : nat,
    bminx t == minx + inject_Z (Z.of_nat i) * size /\
    bminy t == miny + inject_Z (Z.of_nat j) * size.
Proof. intros H Hin. exact (grid_tiles_aligned _ _ _ _ _ _ _ _ _ H Hin). Qed.

Lemma generate_tiles_grid_aligned_witness :
  exists i j : nat,
    2 == 0 + inject_Z (Z.of_nat i) * 1 /\ 1 == 0 + inject_Z (Z.of_nat j) * 1.
Proof.
  apply (generate_tiles_grid_aligned 3 0 0 (5 # 2) 2 1
           [(0, 0, 1, 1); (0, 1, 1, 2); (1, 0, 2, 1); (1, 1, 2, 2);
            (2, 0, 5 # 2, 1); (2, 1, 5 # 2, 2)] (2, 1, 5 # 2, 2)).
  - reflexivity.
  - simpl. auto 10.
Defined.

(** ** Sub-tiles *)

Lemma child_facts (b c : bbox) :
  In c (children b) -> proper b ->
  proper c /\ within c b /\ width c * 2 == width b /\ height c * 2 == height b.
Proof.
  rewrite children_eq. unfold proper, within, width, height.
  intros [<-|[<-|[<-|[<-|[]]]]] H; coords b; repeat split; lra.
Qed.

Lemma within_trans (a b c : bbox) : within a b -> within b c -> within a c.
Proof. unfold within. intros H1 H2. repeat split; lra. Qed.

Lemma leaf_facts (k : nat) : forall b l,
  In l (leaves k b) -> proper b ->
  proper l /\ within l b /\
  width l * inject_Z (2 ^ Z.of_nat k) == width b /\
  height l * inject_Z (2 ^ Z.of_nat k) == height b.
Proof.
  induction k as [|k IH]; intros b l Hin Hb.
  - destruct Hin as [<-|[]]. change (inject_Z (2 ^ Z.of_nat 0)) with 1.
    repeat split; try apply Hb; try lra; ring.
  - cbn [leaves] in Hin. apply in_flat_map in Hin as (c & Hc & Hl).
    destruct (child_facts b c Hc Hb) as (Pc & Wc & Xc & Yc).
    destruct (IH c l Hl Pc) as (Pl & Wl & Xl & Yl).
    split; [exact Pl|]. split; [exact (within_trans _ _ _ Wl Wc)|].
    rewrite Nat2Z.inj_succ, Z.pow_succ_r, inject_Z_mult by lia.
    change (inject_Z 2) with 2. split.
    + rewrite <- Xc, <- Xl. ring.
    + rewrite <- Yc, <- Yl. ring.
Qed.

(** X5, in exact arithmetic: subdividing a proper region [k] times gives
    proper regions lying within it, each [2^k] times narrower and [2^k] times
    lower. *)
Theorem leaves_proper_within_scaled (k : nat) (b l : bbox) :
  In l (leaves k b) -> proper b ->
  proper l /\ within l b /\
  width l * inject_Z (2 ^ Z.of_nat k) == width b /\
  height l * inject_Z (2 ^ Z.of_nat k) == height b.
Proof. apply leaf_facts. Qed.

Lemma leaves_proper_within_scaled_witness :
  proper (8 # 16, 4 # 16, 12 # 16, 8 # 16) /\
  within (8 # 16, 4 # 16, 12 # 16, 8 # 16) (0, 0, 1, 1) /\
  width (8 # 16, 4 # 16, 12 # 16, 8 # 16) * inject_Z (2 ^ Z.of_nat 2)
    == width (0, 0, 1, 1) /\
  height (8 # 16, 4 # 16, 12 # 16, 8 # 16) * inject_Z (2 ^ Z.of_nat 2)
    == height (0, 0, 1, 1).
Proof.
  apply (leaves_proper_within_scaled 2 (0, 0, 1, 1) (8 # 16, 4 # 16, 12 # 16, 8 # 16)).
  - vm_compute. repeat (first [left; reflexivity | right]).
  - split; reflexivity.
Defined.

(** ** Calls of [process_tile] *)

Local Open Scope Z_scope.

Lemma count_subdivisions_app (t1 t2 : list event) :
  count_subdivisions (t1 ++ t2) = (count_subdivisions t1 + count_subdivisions t2)%nat.
Proof. unfold count_subdivisions. now rewrite filter_app, length_app. Qed.

Lemma count_failures_app (t1 t2 : list event) :
  count_failures (t1 ++ t2) = (count_failures t1 + count_failures t2)%nat.
Proof. unfold count_failures. now rewrite filter_app, length_app. Qed.

Lemma keep_columns_shape (gdf : GeoDataFrame) :
  incl (columns (keep_columns gdf)) cols_to_keep /\
  incl (columns (keep_columns gdf)) (columns gdf) /\
  NoDup (columns (keep_columns gdf)) /\
  rectangular (keep_columns gdf).
Proof.
  unfold keep_columns, reindex, rectangular. cbn [columns rows].
  split; [|split; [|split]].
  - intros c Hc. now apply filter_In in Hc.
  - intros c Hc. apply filter_In in Hc as [_ Hc]. now apply has_column_In.
  - apply NoDup_filter. unfold cols_to_keep.
    repeat constructor; simpl; intuition discriminate.
  - apply Forall_forall. intros r Hr. apply in_map_iff in Hr as (r0 & <- & _).
    apply length_map.
Qed.

(** ** Column selection on frames with distinct labels *)

Lemma filter_eqb_absent (c : string) (cols : list string) :
  ~ In c cols -> filter (String.eqb c) cols = [].
Proof.
  induction cols as [|k cols IH]; intros H; [reflexivity|]. simpl.
  destruct (String.eqb c k) eqn:E.
  - apply String.eqb_eq in E. subst. exfalso. apply H. now left.
  - apply IH. intros Hc. apply H. now right.
Qed.

Lemma filter_eqb_unique (c : string) (cols : list string) :
  NoDup cols -> In c cols -> filter (String.eqb c) cols = [c].
Proof.
  induction 1 as [|k cols Hk Hn IH]; intros Hc; [destruct Hc|]. simpl.
  destruct (String.eqb c k) eqn:E.
  - apply String.eqb_eq in E. subst. now rewrite filter_eqb_absent.
  - destruct Hc as [->|Hc]; [now rewrite String.eqb_refl in E|now apply IH].
Qed.

Lemma cells_under_absent (cols : list string) : forall r c,
  ~ In c cols -> cells_under cols r c = [].
Proof.
  induction cols as [|k cols IH]; intros [|v r] c H; try reflexivity. simpl.
  destruct (String.eqb k c) eqn:E.
  - apply String.eqb_eq in E. subst. exfalso. apply H. now left.
  - apply IH. intros Hc. apply H. now right.
Qed.

Lemma cells_under_unique (cols : list string) : forall r c,
  NoDup cols -> length r = length cols -> In c cols ->
  cells_under cols r c = [cell cols r c].
Proof.
  induction cols as [|k cols IH]; intros [|v r] c Hn Hl Hc;
    try destruct Hc; try discriminate Hl; simpl.
  - subst. rewrite String.eqb_refl. inversion Hn; subst.
    now rewrite cells_under_absent.
  - inversion Hn; subst. destruct (String.eqb k c) eqn:E.
    + apply String.eqb_eq in E. subst. now rewrite cells_under_absent.
    + apply IH; [assumption|now injection Hl|assumption].
Qed.

Lemma flat_map_singletons {A B : Type} (f : A -> list B) (g : A -> B) (l : list A) :
  (forall x, In x l -> f x = [g x]) -> flat_map f l = map g l.
Proof.
  induction l as [|x l IH]; intros H; [reflexivity|]. simpl.
  rewrite (H x) by now left. rewrite IH; [reflexivity|].
  intros y Hy. apply H. now right.
Qed.

(** On a frame whose labels are distinct, selecting labels it has is the
    re-labelling of [reindex]; with a repeated label the selection returns
    every column bearing it. *)
Lemma getitem_unique_labels (gdf : GeoDataFrame) (labels : list string) :
  NoDup (columns gdf) -> rectangular gdf -> incl labels (columns gdf) ->
  getitem gdf labels = reindex gdf labels.
Proof.
  intros Hn Hr Hi. unfold getitem, reindex. f_equal.
  - rewrite <- (map_id labels) at 2. apply flat_map_singletons. intros c Hc.
    apply filter_eqb_unique; [exact Hn|now apply Hi].
  - apply map_ext_in. intros r Hin. apply flat_map_singletons. intros c Hc.
    apply cells_under_unique; [exact Hn| |now apply Hi].
    unfold rectangular in Hr. rewrite Forall_forall in Hr. now apply Hr.
Qed.

Lemma keep_columns_getitem (gdf : GeoDataFrame) :
  NoDup (columns gdf) -> rectangular gdf ->
  keep_columns gdf =
  getitem gdf (filter (fun c => has_column c gdf) cols_to_keep).
Proof.
  intros Hn Hr. unfold keep_columns. symmetry.
  apply getitem_unique_labels; [exact Hn|exact Hr|].
  intros c Hc. apply filter_In in Hc as [_ Hc]. now apply has_column_In.
Qed.

Example getitem_keeps_a_repeated_label :
  getitem {| columns := ["partition"; "partition"; "geometry"]%string;
             rows := [[VText "a"; VText "b"; VGeometry "g"]] |}
          ["partition"; "geometry"]%string =
  {| columns := ["partition"; "partition"; "geometry"]%string;
     rows := [[VText "a"; VText "b"; VGeometry "g"]] |}.
Proof. reflexivity. Qed.

Section CallFacts.

Context {World : Type}.
Variable wfs_request : bbox -> World -> option GeoDataFrame * World.

Lemma tile_run_results_bound b d w r w' t :
  tile_run wfs_request b d w r w' t ->
  forall k, MAX_DEPTH <= d + Z.of_nat k -> (length r <= 4 ^ k)%nat.
Proof.
  induction 1 as [b d w w1 E|b d w w1 gdf E Ea
                 |b d w w1 gdf r1 w2 t1 r2 w3 t2 r3 w4 t3 r4 w5 t4 E Ea
                    _ IH1 _ IH2 _ IH3 _ IH4]; intros k Hk.
  - simpl. lia.
  - simpl. pose proof (Nat.pow_nonzero 4 k). lia.
  - apply accepts_false in Ea as [_ Hd]. destruct k as [|k]; [lia|].
    assert (Hk' : MAX_DEPTH <= d + 1 + Z.of_nat k) by lia.
    specialize (IH1 k Hk'). specialize (IH2 k Hk').
    specialize (IH3 k Hk'). specialize (IH4 k Hk').
    rewrite !length_app. rewrite Nat.pow_succ_r'. lia.
Qed.

Lemma tile_run_columns b d w r w' t :
  tile_run wfs_request b d w r w' t ->
  Forall (fun g => incl (columns g) cols_to_keep /\ NoDup (columns g) /\
                   rectangular g) r.
Proof.
  induction 1 as [| b d w w1 gdf E Ea |]; [constructor| |].
  - constructor; [|constructor].
    destruct (keep_columns_shape gdf) as (H1 & _ & H3 & H4). auto.
  - rewrite !Forall_app. auto.
Qed.

(** Every request has one outcome: a subdivision, a returned record set or
    a failure. *)
Lemma tile_run_accounting b d w r w' t :
  tile_run wfs_request b d w r w' t ->
  count_requests t = (1 + 4 * count_subdivisions t)%nat /\
  count_requests t = (count_subdivisions t + length r + count_failures t)%nat.
Proof.
  induction 1 as [| |b d w w1 gdf r1 w2 t1 r2 w3 t2 r3 w4 t3 r4 w5 t4 E Ea
                    _ [A1 B1] _ [A2 B2] _ [A3 B3] _ [A4 B4]];
    [split; reflexivity|split; reflexivity|].
  rewrite !count_requests_app, !count_subdivisions_app, !count_failures_app,
    !length_app.
  change (count_requests [EvRequest b; EvVisit b d (Some gdf);
                          EvPrint (MsgSubdivision b (d + 1))]) with 1%nat.
  change (count_subdivisions [EvRequest b; EvVisit b d (Some gdf);
                              EvPrint (MsgSubdivision b (d + 1))]) with 1%nat.
  change (count_failures [EvRequest b; EvVisit b d (Some gdf);
                          EvPrint (MsgSubdivision b (d + 1))]) with 0%nat.
  lia.
Qed.

(** The first call of a run is the root; all the others are deeper. *)
Lemma tile_run_visits_head b d w r w' t :
  tile_run wfs_request b d w r w' t ->
  exists rest, visited t = (b, d) :: rest /\ Forall (fun v => d < snd v) rest.
Proof.
  induction 1 as [| |b d w w1 gdf r1 w2 t1 r2 w3 t2 r3 w4 t3 r4 w5 t4 E Ea
                    _ (v1 & V1 & D1) _ (v2 & V2 & D2)
                    _ (v3 & V3 & D3) _ (v4 & V4 & D4)];
    [exists []; split; [reflexivity|constructor]
    |exists []; split; [reflexivity|constructor]|].
  exists (((sub_bbox b 0 0, d + 1) :: v1) ++ ((sub_bbox b 0 1, d + 1) :: v2) ++
          ((sub_bbox b 1 0, d + 1) :: v3) ++ ((sub_bbox b 1 1, d + 1) :: v4)).
  rewrite !visited_app, V1, V2, V3, V4. split; [reflexivity|].
  assert (Hstep : forall c v, Forall (fun x => d + 1 < snd x) v ->
                    Forall (fun x : bbox * Z => d < snd x) ((c, d + 1) :: v)).
  { intros c v Hv. constructor; [simpl; lia|].
    eapply Forall_impl; [|exact Hv]. simpl. lia. }
  rewrite !Forall_app. repeat split; apply Hstep; assumption.
Qed.

End CallFacts.

Lemma filter_deeper (d : Z) (l : list (bbox * Z)) :
  Forall (fun v => d < snd v) l -> filter (fun v => snd v =? d) l = [].
Proof.
  induction 1 as [|v l Hv _ IH]; [reflexivity|]. simpl.
  destruct (snd v =? d) eqn:E; [apply Z.eqb_eq in E; lia|exact IH].
Qed.

Section CallProperties.

Context {World : Type}.
Variable wfs_request : bbox -> World -> option GeoDataFrame * World.

(** X6, in exact arithmetic: a call on a proper region only fetches proper
    regions lying within it: a tile fetched [k] levels below the call is
    [2^k] times narrower and lower than the region of the call. *)
Theorem process_tile_stays_in_region fuel b d (w : World) r w' t b' d' :
  process_tile wfs_request fuel b d w = Some (r, w', t) ->
  proper b -> In (b', d') (visited t) ->
  d <= d' /\ proper b' /\ within b' b /\
  (width b' * inject_Z (2 ^ (d' - d)) == width b)%Q /\
  (height b' * inject_Z (2 ^ (d' - d)) == height b)%Q.
Proof.
  intros H Hb Hin. apply process_tile_run in H.
  destruct (tile_run_leaves _ _ _ _ _ _ _ H _ _ Hin) as [Hd Hl].
  destruct (leaf_facts _ _ _ Hl Hb) as (P & W & X & Y).
  rewrite Z2Nat.id in X, Y by lia. auto.
Qed.

(** X7: a call at depth 0 returns at most 64 record sets; every record set
    it returns has its columns in the keep-list and one cell per column in
    every row. *)
Theorem process_tile_result_shape fuel b (w : World) r w' t :
  process_tile wfs_request fuel b 0 w = Some (r, w', t) ->
  (length r <= 64)%nat /\
  Forall (fun g => incl (columns g) cols_to_keep /\ rectangular g) r.
Proof.
  intros H. apply process_tile_run in H. split.
  - apply (tile_run_results_bound _ _ _ _ _ _ _ H 3%nat). unfold MAX_DEPTH. simpl. lia.
  - eapply Forall_impl; [|exact (tile_run_columns _ _ _ _ _ _ _ H)].
    intros g (Hi & _ & Hr). split; assumption.
Qed.

(** X8: the requests of a call are one more than four times its
    subdivisions, and each request has exactly one outcome: it is
    subdivided, or it contributes one returned record set, or it fails. *)
Theorem process_tile_request_accounting fuel b d (w : World) r w' t :
  process_tile wfs_request fuel b d w = Some (r, w', t) ->
  count_requests t = (1 + 4 * count_subdivisions t)%nat /\
  count_requests t = (count_subdivisions t + length r + count_failures t)%nat.
Proof. intros H. apply process_tile_run in H. exact (tile_run_accounting _ _ _ _ _ _ _ H). Qed.

(** X9: at depth [MAX_DEPTH] or beyond, a call makes its single request and
    returns without subdividing, whatever the answer is. *)
Theorem process_tile_at_max_depth b d (w : World) :
  MAX_DEPTH <= d ->
  exists r w' t,
    (forall fuel, process_tile wfs_request (S fuel) b d w = Some (r, w', t)) /\
    count_requests t = 1%nat /\ count_subdivisions t = 0%nat /\
    (length r <= 1)%nat /\ visited t = [(b, d)].
Proof.
  intros Hd. destruct (wfs_request b w) as [[gdf|] w1] eqn:E.
  - assert (Ha : accepts gdf d = true) by (apply accepts_spec; lia).
    exists [keep_columns gdf], w1, [EvRequest b; EvVisit b d (Some gdf)].
    repeat split; auto.
    intros fuel. cbn [process_tile]. unfold bind, get_features, emit.
    rewrite E, Ha. reflexivity.
  - exists [], w1, [EvRequest b; EvPrint (MsgFetchError b); EvVisit b d None].
    repeat split; auto.
    intros fuel. cbn [process_tile]. unfold bind, get_features. rewrite E.
    reflexivity.
Qed.

(** X10: when the answer for a tile is capped above [MAX_DEPTH], the calls
    one level down are exactly the four quarters of the tile, in the order
    of the loops, whether or not some of them fail; the tile itself is
    requested once. *)
Theorem capped_tile_fetches_its_quarters fuel b d (w w1 : World) gdf r w' t :
  process_tile wfs_request fuel b d w = Some (r, w', t) ->
  wfs_request b w = (Some gdf, w1) ->
  MAX_FEATURES <= len gdf -> d < MAX_DEPTH ->
  map fst (filter (fun v => snd v =? d + 1) (visited t)) = children b /\
  filter (fun v => snd v =? d) (visited t) = [(b, d)] /\
  (5 <= count_requests t)%nat.
Proof.
  intros H E Hcap Hd. apply process_tile_run in H.
  assert (Ea : accepts gdf d = false) by (apply accepts_false; lia).
  inversion H; subst;
    try match goal with
    | H1 : wfs_request ?b ?w = _, H2 : wfs_request ?b ?w = _ |- _ =>
        rewrite H1 in H2; inversion H2; subst
    end; try congruence.
  repeat match goal with
  | R : tile_run wfs_request (sub_bbox b _ _) _ _ _ _ _ |- _ =>
      let v := fresh "v" in let V := fresh "V" in let D := fresh "D" in
      pose proof (tile_run_requests_visits _ _ _ _ _ _ _ R);
      destruct (tile_run_visits_head _ _ _ _ _ _ _ R) as (v & V & D);
      apply (filter_deeper (d + 1)) in D as ?;
      assert (filter (fun x : bbox * Z => snd x =? d) v = [])
        by (apply filter_deeper; eapply Forall_impl; [|exact D]; simpl; lia);
      clear R
  end.
  rewrite !visited_app, !count_requests_app.
  repeat match goal with V : visited _ = _ |- _ => rewrite V in *; clear V end.
  rewrite !filter_app. cbn [visited flat_map app filter snd].
  rewrite !Z.eqb_refl.
  replace (d =? d + 1) with false by (symmetry; apply Z.eqb_neq; lia).
  replace (d + 1 =? d) with false by (symmetry; apply Z.eqb_neq; lia).
  repeat match goal with F : filter _ _ = [] |- _ => rewrite F; clear F end.
  cbn [app map fst length] in *. rewrite children_eq.
  split; [reflexivity|]. split; [reflexivity|].
  unfold count_requests at 1. simpl. lia.
Qed.

End CallProperties.

Lemma process_tile_stays_in_region_witness :
  exists r w' t,
    process_tile (capped_at unit_square) 2 unit_square 0 tt = Some (r, w', t) /\
    0 <= 1 /\ proper (sub_bbox unit_square 0 1) /\
    within (sub_bbox unit_square 0 1) unit_square /\
    (width (sub_bbox unit_square 0 1) * inject_Z (2 ^ (1 - 0)) == width unit_square)%Q /\
    (height (sub_bbox unit_square 0 1) * inject_Z (2 ^ (1 - 0)) == height unit_square)%Q.
Proof.
  eexists _, _, _. split; [vm_compute; reflexivity|].
  eapply (process_tile_stays_in_region (capped_at unit_square) 2 unit_square 0 tt).
  - vm_compute. reflexivity.
  - split; reflexivity.
  - vm_compute. auto.
Defined.

Lemma process_tile_result_shape_witness :
  exists r w' t,
    process_tile always_capped 4 unit_square 0 tt = Some (r, w', t) /\
    (length r <= 64)%nat /\
    Forall (fun g => incl (columns g) cols_to_keep /\ rectangular g) r.
Proof.
  destruct (process_tile_total always_capped 4 unit_square 0 tt)
    as (r & w' & t & H); [lia|unfold MAX_DEPTH; lia|].
  exists r, w', t. split; [exact H|].
  exact (process_tile_result_shape always_capped _ _ _ _ _ _ H).
Defined.

Lemma process_tile_request_accounting_witness :
  exists r w' t,
    process_tile (capped_then_failing unit_square (sub_bbox unit_square 1 0))
      4 unit_square 0 tt = Some (r, w', t) /\
    count_requests t = (1 + 4 * count_subdivisions t)%nat /\
    count_requests t = (count_subdivisions t + length r + count_failures t)%nat.
Proof.
  destruct (process_tile_total
              (capped_then_failing unit_square (sub_bbox unit_square 1 0))
              4 unit_square 0 tt)
    as (r & w' & t & H); [lia|unfold MAX_DEPTH; lia|].
  exists r, w', t. split; [exact H|].
  exact (process_tile_request_accounting _ _ _ _ _ _ _ _ H).
Defined.

Lemma process_tile_at_max_depth_witness :
  exists r w' t,
    (forall fuel, process_tile always_capped (S fuel) unit_square 5 tt
                  = Some (r, w', t)) /\
    count_requests t = 1%nat /\ count_subdivisions t = 0%nat /\
    (length r <= 1)%nat /\ visited t = [(unit_square, 5)].
Proof.
  apply (process_tile_at_max_depth always_capped unit_square 5 tt).
  unfold MAX_DEPTH. lia.
Defined.

Lemma capped_tile_fetches_its_quarters_witness :
  exists r w' t,
    process_tile (capped_then_failing unit_square (sub_bbox unit_square 1 0))
      4 unit_square 0 tt = Some (r, w', t) /\
    map fst (filter (fun v => snd v =? 0 + 1) (visited t)) = children unit_square /\
    filter (fun v => snd v =? 0) (visited t) = [(unit_square, 0)] /\
    (5 <= count_requests t)%nat.
Proof.
  destruct (process_tile_total
              (capped_then_failing unit_square (sub_bbox unit_square 1 0))
              4 unit_square 0 tt)
    as (r & w' & t & H); [lia|unfold MAX_DEPTH; lia|].
  exists r, w', t. split; [exact H|].
  apply (capped_tile_fetches_its_quarters _ _ _ _ _ tt bare_capped_frame _ _ _ H).
  - reflexivity.
  - apply Z.leb_le. vm_compute. reflexivity.
  - reflexivity.
Defined.

(** The dense tile is answered by a capped frame and one of its quarters
    fails: the three other quarters are still collected. *)
Example failed_quarter_is_skipped :
  option_map (fun '(r, _, t) =>
                (length r, count_requests t, count_subdivisions t, count_failures t,
                 map fst (filter (fun v => snd v =? 1) (visited t))))
             (process_tile (capped_then_failing unit_square (sub_bbox unit_square 1 0))
                4 unit_square 0 tt)
  = Some (3%nat, 5%nat, 1%nat, 1%nat, children unit_square).
Proof. vm_compute. reflexivity. Qed.

(** ** The harvest as a whole *)

Lemma add_labels_incl (K cols : list string) : forall seen,
  incl seen K -> incl cols K -> incl (fold_left add_label cols seen) K.
Proof.
  induction cols as [|c cols IH]; intros seen Hs Hc; [exact Hs|].
  cbn [fold_left]. apply IH.
  - unfold add_label. destruct (existsb (String.eqb c) seen); [exact Hs|].
    apply incl_app; [exact Hs|]. intros x [<-|[]]. apply Hc. now left.
  - intros x Hx. apply Hc. now right.
Qed.

Lemma add_labels_nodup (cols : list string) : forall seen,
  NoDup seen -> NoDup (fold_left add_label cols seen).
Proof.
  induction cols as [|c cols IH]; intros seen Hs; [exact Hs|].
  cbn [fold_left]. apply IH. unfold add_label.
  destruct (existsb (String.eqb c) seen) eqn:E; [exact Hs|].
  apply NoDup_app; [exact Hs|repeat constructor; intros []|].
  intros x Hx [Heq|[]]. subst x.
  assert (Hex : existsb (String.eqb c) seen = true).
  { apply existsb_exists. exists c. split; [exact Hx|apply String.eqb_refl]. }
  congruence.
Qed.

Lemma union_columns_shape (K : list string) (l : list GeoDataFrame) :
  Forall (fun g => incl (columns g) K) l ->
  incl (union_columns l) K /\ NoDup (union_columns l).
Proof.
  unfold union_columns. intros H.
  assert (G : forall seen, incl seen K -> NoDup seen ->
            incl (fold_left (fun seen df => fold_left add_label (columns df) seen)
                            l seen) K /\
            NoDup (fold_left (fun seen df => fold_left add_label (columns df) seen)
                             l seen)).
  { induction H as [|g l Hg _ IH]; intros seen Hs Hn; [split; assumption|].
    cbn [fold_left]. apply IH.
    - now apply add_labels_incl.
    - now apply add_labels_nodup. }
  apply G; [intros x []|constructor].
Qed.

Lemma accepted_columns (t : list event) :
  Forall (fun g => incl (columns g) cols_to_keep)
         (nonempty_sets (map snd (accepted t))).
Proof.
  apply Forall_forall. intros g Hg. apply filter_In in Hg as [Hg _].
  apply in_map_iff in Hg as ([d g'] & <- & Hin).
  apply accepted_In in Hin as (b & gdf & _ & _ & ->).
  apply keep_columns_shape.
Qed.

Section HarvestBounds.

Context {World : Type}.
Variable wfs_request : bbox -> World -> option GeoDataFrame * World.

Lemma harvest_tile_bounds fuel total i b a (w : World) a' w' t :
  harvest_tile wfs_request fuel total i b a w = Some (a', w', t) ->
  (1 <= count_requests t <= 85)%nat /\
  (length (all_features a') <= length (all_features a) + 64)%nat.
Proof.
  intros H. apply harvest_tile_inv in H as (r & t1 & Hr & H).
  apply process_tile_run in Hr.
  pose proof (tile_run_accounting _ _ _ _ _ _ _ Hr) as [Hacc _].
  pose proof (tile_run_requests _ _ _ _ _ _ _ Hr 3%nat
                ltac:(unfold MAX_DEPTH; simpl; lia)) as Hq.
  change (max_requests 3) with 85%nat in Hq.
  pose proof (tile_run_results_bound _ _ _ _ _ _ _ Hr 3%nat
                ltac:(unfold MAX_DEPTH; simpl; lia)) as Hl.
  change (4 ^ 3)%nat with 64%nat in Hl.
  destruct H as [(-> & -> & ->)|(Hne & tc & Hc & ->)].
  - change (EvPrint (MsgTileStart (i + 1) total b) :: t1)
      with ([EvPrint (MsgTileStart (i + 1) total b)] ++ t1).
    rewrite count_requests_app.
    change (count_requests [EvPrint (MsgTileStart (i + 1) total b)]) with 0%nat.
    lia.
  - apply collect_spec in Hc as (_ & Hf & _ & Hp).
    apply prints_only in Hp as (_ & Pq & _).
    change (EvPrint (MsgTileStart (i + 1) total b) :: t1 ++ tc ++ [EvSleep 1])
      with ([EvPrint (MsgTileStart (i + 1) total b)] ++ t1 ++ tc ++ [EvSleep 1]).
    rewrite !count_requests_app, Pq, Hf, length_app.
    change (count_requests [EvPrint (MsgTileStart (i + 1) total b)]) with 0%nat.
    change (count_requests [EvSleep 1]) with 0%nat.
    pose proof (filter_length_le (fun gdf => len gdf >? 0) r) as Hfl.
    unfold nonempty_sets. lia.
Qed.

Lemma harvest_loop_bounds fuel total tiles : forall i a (w : World) a' w' t,
  harvest_loop wfs_request fuel total i tiles a w = Some (a', w', t) ->
  (length tiles <= count_requests t <= 85 * length tiles)%nat /\
  (length (all_features a') <= length (all_features a) + 64 * length tiles)%nat.
Proof.
  induction tiles as [|b rest IH]; intros i a w a' w' t H.
  - cbn [harvest_loop] in H. unfold ret in H. injection H as <- <- <-.
    simpl. unfold count_requests. simpl. lia.
  - cbn [harvest_loop] in H.
    apply bind_Some in H as (a1 & w1 & t1 & t2 & H1 & H2 & ->).
    apply harvest_tile_bounds in H1 as (Q1 & L1).
    apply IH in H2 as (Q2 & L2).
    rewrite count_requests_app. cbn [length]. lia.
Qed.

(** What the call for one tile did, for every call of a loop. *)
Lemma harvest_loop_visits fuel total tiles : forall i a (w : World) a' w' t v,
  harvest_loop wfs_request fuel total i tiles a w = Some (a', w', t) ->
  In v (visited t) ->
  exists b w0 r w1 t1,
    In b tiles /\ tile_run wfs_request b 0 w0 r w1 t1 /\ In v (visited t1).
Proof.
  induction tiles as [|b rest IH]; intros i a w a' w' t v H Hin.
  - cbn [harvest_loop] in H. unfold ret in H. injection H as <- <- <-.
    destruct Hin.
  - cbn [harvest_loop] in H.
    apply bind_Some in H as (a1 & w1 & t1 & t2 & H1 & H2 & ->).
    rewrite visited_app in Hin. apply in_app_or in Hin as [Hin|Hin].
    + apply harvest_tile_inv in H1 as (r & tr & Hr & H1).
      apply process_tile_run in Hr.
      exists b, w, r, w1, tr. split; [now left|]. split; [exact Hr|].
      destruct H1 as [(-> & -> & ->)|(Hne & tc & Hc & ->)].
      * exact Hin.
      * apply collect_spec in Hc as (_ & _ & _ & Hp).
        apply prints_only in Hp as (_ & _ & _ & Pv & _).
        change (EvPrint (MsgTileStart (i + 1) total b) :: tr ++ tc ++ [EvSleep 1])
          with ([EvPrint (MsgTileStart (i + 1) total b)] ++ tr ++ tc ++ [EvSleep 1])
          in Hin.
        rewrite !visited_app, Pv in Hin. cbn [visited flat_map app] in Hin.
        rewrite !app_nil_r in Hin. exact Hin.
    + destruct (IH _ _ _ _ _ _ _ H2 Hin) as (b0 & w0 & r & w2 & tr & Hb & Hr & Hv).
      exists b0, w0, r, w2, tr. split; [now right|]. auto.
Qed.

End HarvestBounds.

(** The inner loop prints nothing but its collection messages. *)
Lemma collect_messages {World : Type} (l : list GeoDataFrame) :
  forall a (w : World) a' w' t,
  collect l a w = Some (a', w', t) -> count_subdivisions t = 0%nat.
Proof.
  unfold collect. induction l as [|g l IH]; intros a w a' w' t H.
  - inv_M. reflexivity.
  - cbn [for_each] in H.
    apply bind_Some in H as (a1 & w1 & t1 & t2 & H1 & H2 & ->).
    apply IH in H2. rewrite count_subdivisions_app, H2.
    destruct (len g >? 0); inv_M; reflexivity.
Qed.

Section ServiceFacts.

Context {World : Type}.
Variable wfs_request : bbox -> World -> option GeoDataFrame * World.

Lemma tile_run_down b d w r w' t :
  always_down wfs_request -> tile_run wfs_request b d w r w' t ->
  r = [] /\ t = [EvRequest b; EvPrint (MsgFetchError b); EvVisit b d None].
Proof.
  intros Hdown H. inversion H; subst; auto;
    match goal with E : wfs_request ?b ?w = (Some _, _) |- _ =>
      pose proof (Hdown b w) as Hn; rewrite E in Hn; discriminate Hn end.
Qed.

Lemma harvest_loop_down fuel total tiles : forall i a (w : World) a' w' t,
  always_down wfs_request ->
  harvest_loop wfs_request fuel total i tiles a w = Some (a', w', t) ->
  a' = a /\ count_sleeps t = 0%nat /\ count_requests t = length tiles /\
  count_failures t = length tiles /\ writes t = [].
Proof.
  induction tiles as [|b rest IH]; intros i a w a' w' t Hdown H.
  - cbn [harvest_loop] in H. unfold ret in H. injection H as <- <- <-. auto.
  - cbn [harvest_loop] in H.
    apply bind_Some in H as (a1 & w1 & t1 & t2 & H1 & H2 & ->).
    apply harvest_tile_inv in H1 as (r & tr & Hr & H1).
    apply process_tile_run in Hr.
    destruct (tile_run_down _ _ _ _ _ _ Hdown Hr) as [-> ->].
    destruct H1 as [(_ & -> & ->)|(Hne & _)]; [|congruence].
    destruct (IH _ _ _ _ _ _ Hdown H2) as (-> & S2 & Q2 & F2 & W2).
    rewrite count_sleeps_app, count_requests_app, count_failures_app, writes_app,
      S2, Q2, F2, W2.
    repeat split.
Qed.

Lemma tile_run_uncapped b d w r w' t :
  never_capped wfs_request -> tile_run wfs_request b d w r w' t ->
  count_requests t = 1%nat /\ count_subdivisions t = 0%nat /\
  visited t = [(b, d)] /\ (length r <= 1)%nat.
Proof.
  intros Hnc H. inversion H; subst; [repeat split; auto..|].
  match goal with
  | E : wfs_request _ _ = (Some ?g, _), Ea : accepts ?g _ = false |- _ =>
      apply accepts_false in Ea as [Ea _]; pose proof (Hnc _ _ _ _ E); lia
  end.
Qed.

Lemma harvest_loop_uncapped fuel total tiles : forall i a (w : World) a' w' t,
  never_capped wfs_request ->
  harvest_loop wfs_request fuel total i tiles a w = Some (a', w', t) ->
  count_requests t = length tiles /\ count_subdivisions t = 0%nat /\
  map fst (visited t) = tiles /\ Forall (fun v => snd v = 0) (visited t).
Proof.
  induction tiles as [|b rest IH]; intros i a w a' w' t Hnc H.
  - cbn [harvest_loop] in H. unfold ret in H. injection H as <- <- <-.
    repeat split. constructor.
  - cbn [harvest_loop] in H.
    apply bind_Some in H as (a1 & w1 & t1 & t2 & H1 & H2 & ->).
    apply harvest_tile_inv in H1 as (r & tr & Hr & H1).
    apply process_tile_run in Hr.
    destruct (tile_run_uncapped _ _ _ _ _ _ Hnc Hr) as (Q1 & S1 & V1 & _).
    destruct (IH _ _ _ _ _ _ Hnc H2) as (Q2 & S2 & V2 & D2).
    assert (Ht1 : count_requests t1 = 1%nat /\ count_subdivisions t1 = 0%nat /\
                  visited t1 = [(b, 0)]).
    { destruct H1 as [(_ & _ & ->)|(_ & tc & Hc & ->)].
      - change (EvPrint (MsgTileStart (i + 1) total b) :: tr)
          with ([EvPrint (MsgTileStart (i + 1) total b)] ++ tr).
        rewrite count_requests_app, count_subdivisions_app, visited_app, Q1, S1, V1.
        repeat split.
      - pose proof (collect_messages _ _ _ _ _ _ Hc) as Hs.
        apply collect_spec in Hc as (_ & _ & _ & Hp).
        apply prints_only in Hp as (_ & Pq & _ & Pv & _).
        change (EvPrint (MsgTileStart (i + 1) total b) :: tr ++ tc ++ [EvSleep 1])
          with ([EvPrint (MsgTileStart (i + 1) total b)] ++ tr ++ tc ++ [EvSleep 1]).
        rewrite !count_requests_app, !count_subdivisions_app, !visited_app,
          Q1, S1, V1, Pq, Pv, Hs.
        repeat split. }
    destruct Ht1 as (A & B & C).
    rewrite count_requests_app, count_subdivisions_app, visited_app, A, B, C,
      map_app, V2, Q2, S2.
    repeat split. constructor; [reflexivity|exact D2].
Qed.

End ServiceFacts.

Lemma generated_tile_facts (f : nat) (area : bbox) (size : Q) tiles b :
  generate_tiles f (bminx area) (bminy area) (bmaxx area) (bmaxy area) size
    = Some tiles ->
  In b tiles ->
  proper b /\ within b area /\ (width b <= size)%Q /\ (height b <= size)%Q.
Proof.
  intros H Hin.
  pose proof (generate_tiles_step_positive _ _ _ _ _ _ _ _ H Hin) as Hs.
  destruct (grid_tiles_shape _ _ _ _ _ _ _ _ _ H Hs Hin)
    as ((X1 & X2 & X3) & (Y1 & Y2 & Y3)).
  pose proof (py_min_le_l (bminx b + size) (bmaxx area)).
  pose proof (py_min_le_r (bminx b + size) (bmaxx area)).
  pose proof (py_min_le_l (bminy b + size) (bmaxy area)).
  pose proof (py_min_le_r (bminy b + size) (bmaxy area)).
  assert (bminx b < bmaxx b)%Q by (rewrite X3; apply py_min_gt; lra).
  assert (bminy b < bmaxy b)%Q by (rewrite Y3; apply py_min_gt; lra).
  unfold proper, within, width, height. rewrite X3, Y3 in *.
  repeat split; lra.
Qed.

Lemma no_write_events (P : event -> Prop) (t : list event) :
  writes t = [] -> (forall e, is_write e = false -> P e) -> Forall P t.
Proof.
  intros H HP. induction t as [|e t IH]; [constructor|].
  unfold writes in H. cbn [filter] in H.
  destruct (is_write e) eqn:E; [discriminate|]. constructor; auto.
Qed.

Section HarvestProperties.

Context {World : Type}.
Variable wfs_request : bbox -> World -> option GeoDataFrame * World.

(** X11: a harvest over [N] initial tiles issues between [N] and [85 * N]
    requests, pauses at most [N] times and collects at most [64 * N] record
    sets. *)
Theorem harvest_resource_bounds fuel area size (w : World) a w' t :
  harvest wfs_request fuel area size w = Some (a, w', t) ->
  exists tiles,
    generate_tiles fuel (bminx area) (bminy area) (bmaxx area) (bmaxy area) size
      = Some tiles /\
    (length tiles <= count_requests t <= 85 * length tiles)%nat /\
    (count_sleeps t <= length tiles)%nat /\
    (length (all_features a) <= 64 * length tiles)%nat.
Proof.
  intros H. apply harvest_inv in H as (tiles & t' & Ht & Hl & ->).
  apply tiles_of_inv in Ht as (_ & _ & Hg). exists tiles. split; [exact Hg|].
  pose proof (harvest_loop_bounds _ _ _ _ _ _ _ _ _ _ Hl) as (Q & L).
  apply harvest_loop_spec in Hl as (_ & _ & _ & _ & S & _).
  change (EvPrint (MsgTotalTiles (Z.of_nat (length tiles))) :: t')
    with ([EvPrint (MsgTotalTiles (Z.of_nat (length tiles)))] ++ t').
  rewrite count_requests_app, count_sleeps_app.
  change (count_requests [EvPrint (MsgTotalTiles (Z.of_nat (length tiles)))])
    with 0%nat.
  change (count_sleeps [EvPrint (MsgTotalTiles (Z.of_nat (length tiles)))])
    with 0%nat.
  simpl in L. repeat split; lia.
Qed.

(** X12: when the service fails on every request, the run still goes
    through all the initial tiles with one request each, never pauses,
    collects nothing, writes no file and prints the no-data message. *)
Theorem run_with_service_down fuel area size (w : World) a w' t :
  always_down wfs_request ->
  run wfs_request fuel area size w = Some (a, w', t) ->
  a = initial_accumulator /\ count_sleeps t = 0%nat /\ writes t = [] /\
  In (EvPrint MsgNoData) t /\
  exists tiles,
    generate_tiles fuel (bminx area) (bminy area) (bmaxx area) (bmaxy area) size
      = Some tiles /\
    count_requests t = length tiles /\ count_failures t = length tiles.
Proof.
  intros Hdown H. apply run_inv in H as (th & te & Hh & He & ->).
  apply harvest_inv in Hh as (tiles & t' & Ht & Hl & ->).
  apply tiles_of_inv in Ht as (_ & _ & Hg).
  apply (harvest_loop_down _ _ _ _ _ _ _ _ _ _ Hdown) in Hl
    as (-> & S & Q & F & W).
  rewrite (proj1 (export_spec initial_accumulator w') eq_refl) in He.
  injection He as <-.
  change (EvPrint (MsgTotalTiles (Z.of_nat (length tiles))) :: t')
    with ([EvPrint (MsgTotalTiles (Z.of_nat (length tiles)))] ++ t').
  rewrite !count_sleeps_app, !writes_app, !count_requests_app, !count_failures_app,
    S, W, Q, F.
  split; [reflexivity|]. split; [reflexivity|]. split; [reflexivity|].
  split; [apply in_or_app; right; now left|].
  exists tiles. split; [exact Hg|].
  unfold count_requests, count_failures. split; simpl; lia.
Qed.

(** X13: when no answer reaches the cap, the harvest never subdivides: it
    issues exactly one request per initial tile, in the order of the tiles,
    all at depth 0. *)
Theorem harvest_without_capping fuel area size (w : World) a w' t :
  never_capped wfs_request ->
  harvest wfs_request fuel area size w = Some (a, w', t) ->
  generate_tiles fuel (bminx area) (bminy area) (bmaxx area) (bmaxy area) size
    = Some (map fst (visited t)) /\
  count_requests t = length (visited t) /\
  count_subdivisions t = 0%nat /\
  Forall (fun v => snd v = 0) (visited t).
Proof.
  intros Hnc H. apply harvest_inv in H as (tiles & t' & Ht & Hl & ->).
  apply tiles_of_inv in Ht as (_ & _ & Hg).
  apply (harvest_loop_uncapped _ _ _ _ _ _ _ _ _ _ Hnc) in Hl as (Q & S & V & D).
  change (EvPrint (MsgTotalTiles (Z.of_nat (length tiles))) :: t')
    with ([EvPrint (MsgTotalTiles (Z.of_nat (length tiles)))] ++ t').
  rewrite count_requests_app, count_subdivisions_app, visited_app.
  cbn [visited flat_map app]. rewrite V, Q, S.
  split; [exact Hg|]. split; [|split; [reflexivity|exact D]].
  rewrite <- V, length_map. reflexivity.
Qed.

(** X14: the harvest never queries outside the area of interest: every
    tile it fetches, at depth [d], is a proper region within the area, at
    most [size / 2^d] wide and high, with [0 <= d <= MAX_DEPTH]. *)
Theorem harvest_stays_in_area fuel area size (w : World) a w' t b' d' :
  harvest wfs_request fuel area size w = Some (a, w', t) ->
  In (b', d') (visited t) ->
  0 <= d' <= MAX_DEPTH /\ proper b' /\ within b' area /\
  (width b' * inject_Z (2 ^ d') <= size)%Q /\
  (height b' * inject_Z (2 ^ d') <= size)%Q.
Proof.
  intros H Hin. apply harvest_inv in H as (tiles & t' & Ht & Hl & ->).
  apply tiles_of_inv in Ht as (_ & _ & Hg).
  change (EvPrint (MsgTotalTiles (Z.of_nat (length tiles))) :: t')
    with ([EvPrint (MsgTotalTiles (Z.of_nat (length tiles)))] ++ t') in Hin.
  rewrite visited_app in Hin. cbn [visited flat_map app] in Hin.
  destruct (harvest_loop_visits _ _ _ _ _ _ _ _ _ _ _ Hl Hin)
    as (b & w0 & r & w1 & t1 & Hb & Hr & Hv).
  destruct (generated_tile_facts _ _ _ _ _ Hg Hb) as (Pb & Wb & Xb & Yb).
  pose proof (tile_run_depths _ _ _ _ _ _ _ Hr) as Hd.
  rewrite Forall_forall in Hd. specialize (Hd _ Hv). cbn [snd] in Hd.
  change (Z.max 0 MAX_DEPTH) with MAX_DEPTH in Hd.
  destruct (tile_run_leaves _ _ _ _ _ _ _ Hr _ _ Hv) as [_ Hl'].
  destruct (leaf_facts _ _ _ Hl' Pb) as (P & W & X & Y).
  rewrite Z2Nat.id, Z.sub_0_r in X, Y by lia.
  split; [exact Hd|]. split; [exact P|].
  split; [exact (within_trans _ _ _ W Wb)|].
  rewrite X, Y. auto.
Qed.

(** X15: nothing is written before the harvest is over: the trace of a run
    splits into a harvest part without any write and an export part without
    any request, call or pause. *)
Theorem run_writes_after_requests fuel area size (w : World) a w' t :
  run wfs_request fuel area size w = Some (a, w', t) ->
  exists th te,
    t = th ++ te /\ writes th = [] /\
    count_requests te = 0%nat /\ count_sleeps te = 0%nat /\ visited te = [].
Proof.
  intros H. apply run_inv in H as (th & te & Hh & He & ->).
  apply harvest_spec in Hh as (_ & _ & _ & W).
  exists th, te. split; [reflexivity|]. split; [exact W|].
  destruct (all_features a) eqn:E.
  - rewrite (proj1 (export_spec a w') E) in He. injection He as <-. auto.
  - assert (Hne : all_features a <> []) by congruence.
    rewrite (proj2 (export_spec a w') Hne) in He. injection He as <-. auto.
Qed.

(** X16: the files only hold columns of the keep-list: the frame written to
    the geometry file has its columns in the keep-list, and the frame written
    to the attribute file moreover has no geometry column. *)
Theorem exported_columns_in_keep_list fuel area size (w : World) a w' t :
  run wfs_request fuel area size w = Some (a, w', t) ->
  Forall (fun e =>
            match e with
            | EvToFile _ _ g => incl (columns g) cols_to_keep
            | EvToCsv _ df =>
                incl (columns df) cols_to_keep /\
                ~ In "geometry"%string (columns df)
            | _ => True
            end) t.
Proof.
  intros H. apply run_inv in H as (th & te & Hh & He & ->).
  apply harvest_spec in Hh as (F & _ & _ & W).
  apply Forall_app. split.
  - apply (no_write_events _ _ W). intros e He'. destruct e; try exact I;
      discriminate He'.
  - destruct (all_features a) eqn:E.
    + rewrite (proj1 (export_spec a w') E) in He. injection He as <-.
      repeat constructor.
    + assert (Hne : all_features a <> []) by congruence.
      rewrite (proj2 (export_spec a w') Hne) in He. injection He as <-.
      assert (Hcols : incl (columns (concat (all_features a))) cols_to_keep /\
                     NoDup (columns (concat (all_features a)))).
      { unfold concat. cbn [columns]. apply union_columns_shape.
        rewrite E, F. apply accepted_columns. }
      destruct Hcols as [Hi Hn].
      constructor; [exact I|]. constructor; [exact Hi|].
      constructor; [|repeat constructor].
      destruct (has_column "geometry" (concat (all_features a))) eqn:Eg.
      * unfold drop, reindex. cbn [columns]. split.
        -- intros c Hc. apply filter_In in Hc as [Hc _]. now apply Hi.
        -- intros Hc. apply filter_In in Hc as [_ Hc].
           now rewrite String.eqb_refl in Hc.
      * split; [exact Hi|]. intros Hc. apply has_column_In in Hc. congruence.
Qed.

(** X17: on an area with [maxx <= minx] the run ends at once, for any step
    and any service: no tile, no request, no file, only the tile count and
    the no-data message. *)
Theorem run_on_empty_area fuel area size (w : World) :
  (bmaxx area <= bminx area)%Q ->
  run wfs_request fuel area size w =
  Some (initial_accumulator, w, [EvPrint (MsgTotalTiles 0); EvPrint MsgNoData]).
Proof.
  intros Hx.
  assert (Ht : tiles_of fuel area size w = Some ([], w, [])).
  { destruct area as [[[minx miny] maxx] maxy]. unfold tiles_of, generate_tiles.
    cbn [bminx bmaxx] in Hx. now rewrite grid_tiles_nothing. }
  unfold run, harvest. cbv beta iota delta [bind emit]. rewrite Ht.
  cbv beta iota. rewrite Ht. reflexivity.
Qed.

End HarvestProperties.

Lemma harvest_resource_bounds_witness :
  exists a w' t,
    harvest always_capped 4 unit_square 1 tt = Some (a, w', t) /\
    exists tiles,
      generate_tiles 4 (bminx unit_square) (bminy unit_square)
        (bmaxx unit_square) (bmaxy unit_square) 1 = Some tiles /\
      (length tiles <= count_requests t <= 85 * length tiles)%nat /\
      (count_sleeps t <= length tiles)%nat /\
      (length (all_features a) <= 64 * length tiles)%nat.
Proof.
  destruct (harvest_total always_capped 4 unit_square 1 tt [unit_square])
    as (a & w' & t & H); [lia|reflexivity|].
  exists a, w', t. split; [exact H|].
  exact (harvest_resource_bounds always_capped _ _ _ _ _ _ _ H).
Defined.

Lemma run_with_service_down_witness :
  exists a w' t,
    run always_fails 4 (0, 45, 1, 47)%Q 1 tt = Some (a, w', t) /\
    a = initial_accumulator /\ count_sleeps t = 0%nat /\ writes t = [] /\
    In (EvPrint MsgNoData) t /\
    exists tiles,
      generate_tiles 4 0 45 1 47 1 = Some tiles /\
      count_requests t = length tiles /\ count_failures t = length tiles.
Proof.
  destruct (run_total always_fails 4 (0, 45, 1, 47)%Q 1 tt
              [(0, 45, 1, 46)%Q; (0, 46, 1, 47)%Q])
    as (a & w' & t & H); [lia|reflexivity|].
  exists a, w', t. split; [exact H|].
  apply (run_with_service_down always_fails _ _ _ _ _ _ _ (fun b w => eq_refl) H).
Defined.

Lemma harvest_without_capping_witness :
  exists a w' t,
    harvest always_small 4 (0, 45, 1, 47)%Q 1 tt = Some (a, w', t) /\
    generate_tiles 4 0 45 1 47 1 = Some (map fst (visited t)) /\
    count_requests t = length (visited t) /\
    count_subdivisions t = 0%nat /\
    Forall (fun v => snd v = 0) (visited t).
Proof.
  destruct (harvest_total always_small 4 (0, 45, 1, 47)%Q 1 tt
              [(0, 45, 1, 46)%Q; (0, 46, 1, 47)%Q])
    as (a & w' & t & H); [lia|reflexivity|].
  exists a, w', t. split; [exact H|].
  refine (harvest_without_capping always_small _ _ _ _ _ _ _ _ H).
  intros b w gdf w1 E. unfold always_small in E. injection E as <- _. reflexivity.
Defined.

Lemma harvest_stays_in_area_witness :
  exists a w' t,
    harvest (capped_at unit_square) 4 unit_square 1 tt = Some (a, w', t) /\
    0 <= 1 <= MAX_DEPTH /\ proper (sub_bbox unit_square 1 1) /\
    within (sub_bbox unit_square 1 1) unit_square /\
    (width (sub_bbox unit_square 1 1) * inject_Z (2 ^ 1) <= 1)%Q /\
    (height (sub_bbox unit_square 1 1) * inject_Z (2 ^ 1) <= 1)%Q.
Proof.
  eexists _, _, _. split; [vm_compute; reflexivity|].
  eapply (harvest_stays_in_area (capped_at unit_square) 4 unit_square 1 tt).
  - vm_compute. reflexivity.
  - vm_compute. auto 10.
Defined.

Lemma run_writes_after_requests_witness :
  exists a w' t,
    run always_small 4 unit_square 1 tt = Some (a, w', t) /\
    exists th te,
      t = th ++ te /\ writes th = [] /\
      count_requests te = 0%nat /\ count_sleeps te = 0%nat /\ visited te = [].
Proof.
  destruct (run_total always_small 4 unit_square 1 tt [unit_square])
    as (a & w' & t & H); [lia|reflexivity|].
  exists a, w', t. split; [exact H|].
  exact (run_writes_after_requests always_small _ _ _ _ _ _ _ H).
Defined.

Lemma exported_columns_in_keep_list_witness :
  exists a w' t,
    run always_small 4 unit_square 1 tt = Some (a, w', t) /\
    Forall (fun e =>
              match e with
              | EvToFile _ _ g => incl (columns g) cols_to_keep
              | EvToCsv _ df =>
                  incl (columns df) cols_to_keep /\
                  ~ In "geometry"%string (columns df)
              | _ => True
              end) t.
Proof.
  destruct (run_total always_small 4 unit_square 1 tt [unit_square])
    as (a & w' & t & H); [lia|reflexivity|].
  exists a, w', t. split; [exact H|].
  exact (exported_columns_in_keep_list always_small _ _ _ _ _ _ _ H).
Defined.

Lemma run_on_empty_area_witness :
  run always_small 0 (3, 0, 3, 1)%Q 0 tt =
  Some (initial_accumulator, tt, [EvPrint (MsgTotalTiles 0); EvPrint MsgNoData]).
Proof.
  apply (run_on_empty_area always_small 0 (3, 0, 3, 1)%Q 0 tt).
  unfold Qle. simpl. lia.
Defined.
